(** * Network & Sensor monitor: incident lifecycle and correlation engine

    A shallow embedding of [src/utils/incident_detector.py] (the classifier,
    the lifecycle manager and the analytics of [IncidentDetector]), of the
    incident part of [src/models/database.py] and of the WiFi check loop of
    [src/monitor.py], followed by the properties of the specification that
    were checked against it.

    Conventions of the embedding.
    - A Python [str] is a [string]; a character stands for the code point of
      the same number (code points above 255 are outside the model).
    - A [datetime] is an integer number of microseconds since the epoch
      ([datetime] has microsecond resolution); a [timedelta] is a difference
      of two such numbers.
    - A Python [dict] is an association list in insertion order without
      repeated keys ([dict_set] and [dict_del] keep it so).
    - A key that the source reads with [.get] is an [option] field ([None]:
      the key is missing); a key read by subscript is a plain field.
    - A Python float that results from a true division of integers is the
      exact rational in [Q].
    - [datetime.utcnow()] and the outcome of a commit are not decided by the
      program: they are read from two oracles, [clock] and [store_ok], one
      entry per call. The clock is the wall clock and may step back. The
      store keeps one session for each thread and never rolls it back, so
      that the commits of one thread fail from the first failure on
      ([never_rolled_back]). *)

From Stdlib Require Import String Ascii List ZArith QArith Lia Bool.
From Stdlib Require Import DecimalString Permutation Sorted.
Import ListNotations.
Local Open Scope string_scope.
Local Open Scope Z_scope.

Set Implicit Arguments.

(* ================================================================== *)
(** * Python values *)

(** A [datetime], in microseconds since the epoch. *)
Definition datetime := Z.

Definition MICROSECONDS : Z := 1000000.

(** [timedelta.total_seconds()], as an exact rational number of seconds. *)
Definition total_seconds (delta : Z) : Q := Qmake delta 1000000.

(** [int(delta.total_seconds())]: [int] truncates towards zero. *)
Definition int_total_seconds (delta : Z) : Z := Z.quot delta MICROSECONDS.

(** [timedelta(days=n)]. *)
Definition timedelta_days (n : Z) : Z := n * 86400 * MICROSECONDS.

(** [str(n)] of an integer: decimal digits, with a minus sign when negative. *)
Definition str_of_int (n : Z) : string := NilZero.string_of_int (Z.to_int n).

(** Truthiness of an optional boolean ([d.get(k)] used as a condition). *)
Definition truthy (o : option bool) : bool :=
  match o with Some b => b | None => false end.

(** Truthiness of an optional integer: [None] and [0] are false. *)
Definition truthy_int (o : option Z) : bool :=
  match o with Some n => negb (n =? 0) | None => false end.

(** [d.get(k, default)]. *)
Definition get_default {A : Type} (o : option A) (default : A) : A :=
  match o with Some a => a | None => default end.

(** [sorted(l)] on strings: the order is the lexicographic order of code
    points, which is total, so every sorting algorithm gives this list. *)
Fixpoint insert_sorted (s : string) (l : list string) : list string :=
  match l with
  | [] => [s]
  | x :: r => if String.leb s x then s :: l else x :: insert_sorted s r
  end.

Fixpoint sorted (l : list string) : list string :=
  match l with
  | [] => []
  | x :: r => insert_sorted x (sorted r)
  end.

(** [str.startswith]. *)
Definition startswith (s p : string) : bool := String.prefix p s.

(* ------------------------------------------------------------------ *)
(** ** json.dumps of a list of strings

    [json.dumps] with its default arguments ([ensure_ascii=True], separators
    [", "] and [": "]): a string is written between double quotes, the quote
    and the backslash are escaped with a backslash, the five control
    characters with a short form get it, and every other character outside
    the range from space to tilde is written [\uXXXX] with four lower-case
    hexadecimal digits. *)

Definition quote_char : ascii := "034"%char.
Definition backslash_char : ascii := "092"%char.

Definition char_str (c : ascii) : string := String c EmptyString.

Definition hex_digit (n : N) : ascii :=
  if (n <? 10)%N then ascii_of_N (48 + n) else ascii_of_N (87 + n).

(** ['\\u{0:04x}'.format(n)] for [n < 256]. *)
Definition unicode_escape (n : N) : string :=
  String backslash_char
    (String "u" (String "0" (String "0"
      (String (hex_digit (N.div n 16)) (String (hex_digit (N.modulo n 16)) EmptyString))))).

Definition escape_char (c : ascii) : string :=
  let n := N_of_ascii c in
  if (n =? 34)%N then String backslash_char (char_str quote_char)
  else if (n =? 92)%N then String backslash_char (char_str backslash_char)
  else if (n =? 10)%N then String backslash_char "n"
  else if (n =? 13)%N then String backslash_char "r"
  else if (n =? 9)%N then String backslash_char "t"
  else if (n =? 8)%N then String backslash_char "b"
  else if (n =? 12)%N then String backslash_char "f"
  else if ((32 <=? n) && (n <=? 126))%N then char_str c
  else unicode_escape n.

Fixpoint escape_string (s : string) : string :=
  match s with
  | EmptyString => EmptyString
  | String c r => escape_char c ++ escape_string r
  end.

Definition json_string (s : string) : string :=
  char_str quote_char ++ escape_string s ++ char_str quote_char.

Fixpoint json_items (l : list string) : string :=
  match l with
  | [] => EmptyString
  | [x] => json_string x
  | x :: r => json_string x ++ ", " ++ json_items r
  end.

Definition json_dumps (l : list string) : string := "[" ++ json_items l ++ "]".

(* ------------------------------------------------------------------ *)
(** ** Dictionaries with string keys *)

Definition dict (V : Type) := list (string * V).

(** [d.get(k)] / [d[k]]. *)
Fixpoint dict_get {V : Type} (k : string) (d : dict V) : option V :=
  match d with
  | [] => None
  | (k', v) :: r => if String.eqb k k' then Some v else dict_get k r
  end.

(** [k in d]. *)
Definition dict_mem {V : Type} (k : string) (d : dict V) : bool :=
  match dict_get k d with Some _ => true | None => false end.

(** [d[k] = v]: an existing key keeps its place, a new one goes last. *)
Fixpoint dict_set {V : Type} (k : string) (v : V) (d : dict V) : dict V :=
  match d with
  | [] => [(k, v)]
  | (k', v') :: r =>
      if String.eqb k k' then (k, v) :: r else (k', v') :: dict_set k v r
  end.

(** [del d[k]] for a key that is present. *)
Definition dict_del {V : Type} (k : string) (d : dict V) : dict V :=
  filter (fun kv => negb (String.eqb k (fst kv))) d.

(** [list(d.keys())]. *)
Definition dict_keys {V : Type} (d : dict V) : list string := map fst d.

(** [d[k] += 1] on a [defaultdict(int)]. *)
Definition dict_incr (k : string) (d : dict Z) : dict Z :=
  dict_set k (get_default (dict_get k d) 0 + 1) d.

(* ================================================================== *)
(** * Snapshots and descriptors *)

(** The dict returned by [WiFiMonitor.get_wifi_status], with the keys the
    check loop and the classifier read. *)
Module WiFi.
Record t : Type := mk {
  timestamp : datetime;
  interface : string;
  is_connected : option bool;
  rssi : option Z
}.
End WiFi.

(** The dict returned by [NetworkMonitor.ping]. [packet_loss] is the float
    [float(m)] of the integer percentage [m] that ping printed (or [100.0]),
    kept as that integer. *)
Module Ping.
Record t : Type := mk {
  target : string;
  is_reachable : option bool;
  packet_loss : option Z
}.
End Ping.

(** The dict [{"sensor_name": .., "sensor_ip": .., **result}] handed to
    [check_sensor_status]. *)
Module Sensor.
Record t : Type := mk {
  sensor_name : option string;
  sensor_ip : option string;
  is_available : option bool
}.
End Sensor.

(** The incident dict that a classifier returns. The classifiers other than
    the sensor one leave the ["probable_cause"] key out. *)
Module Descriptor.
Record t : Type := mk {
  incident_type : string;
  severity : string;
  description : string;
  affected_targets : list string;
  probable_cause : option string
}.
End Descriptor.

(** [repr] of the float [float(m)] inside an f-string. *)
Definition str_of_percentage (m : Z) : string := str_of_int m ++ ".0".

(* ================================================================== *)
(** * Incident classifier *)

Definition check_wifi_status (wifi_data : WiFi.t) (rssi_critical : Z)
  : option Descriptor.t :=
  if negb (truthy (WiFi.is_connected wifi_data)) then
    Some (Descriptor.mk "wifi_outage" "critical"
            ("WiFi interface " ++ WiFi.interface wifi_data ++ " disconnected")
            [WiFi.interface wifi_data] None)
  else if truthy_int (WiFi.rssi wifi_data)
          && (get_default (WiFi.rssi wifi_data) 0 <? rssi_critical) then
    Some (Descriptor.mk "wifi_degradation" "warning"
            ("WiFi signal weak: "
               ++ str_of_int (get_default (WiFi.rssi wifi_data) 0) ++ " dBm")
            [WiFi.interface wifi_data] None)
  else None.

(** [any(r.get("is_reachable", False) for r in internet_results)]. *)
Definition any_reachable (internet_results : list Ping.t) : bool :=
  existsb (fun r => get_default (Ping.is_reachable r) false) internet_results.

Definition check_network_connectivity
    (gateway_result : Ping.t) (internet_results : list Ping.t)
  : option Descriptor.t :=
  let gateway_reachable := get_default (Ping.is_reachable gateway_result) false in
  let internet_reachable := any_reachable internet_results in
  if negb gateway_reachable then
    Some (Descriptor.mk "wifi_outage" "critical"
            ("Gateway " ++ Ping.target gateway_result ++ " unreachable")
            [Ping.target gateway_result] None)
  else if gateway_reachable && negb internet_reachable then
    let targets := map Ping.target internet_results in
    Some (Descriptor.mk "internet_outage" "warning"
            "Internet connectivity lost (gateway reachable)"
            targets None)
  else
    let packet_loss := get_default (Ping.packet_loss gateway_result) 0 in
    if 20 <? packet_loss then
      Some (Descriptor.mk "wifi_degradation" "warning"
              ("High packet loss to gateway: " ++ str_of_percentage packet_loss ++ "%")
              [Ping.target gateway_result] None)
    else None.

Definition CAUSE_CORRELATED : string :=
  "WiFi/network connectivity issue (correlated with WiFi/gateway outage)".

Definition CAUSE_SENSOR : string :=
  "Sensor-specific issue (WiFi and gateway are operational)".

Definition check_sensor_status
    (sensor_check : Sensor.t) (wifi_ok gateway_ok : bool)
  : option Descriptor.t :=
  if truthy (Sensor.is_available sensor_check) then None
  else
    let sensor_name := get_default (Sensor.sensor_name sensor_check) "Unknown" in
    let sensor_ip := get_default (Sensor.sensor_ip sensor_check) "Unknown" in
    let '(probable_cause, severity) :=
      if negb wifi_ok || negb gateway_ok
      then (CAUSE_CORRELATED, "info")
      else (CAUSE_SENSOR, "warning") in
    Some (Descriptor.mk "sensor_outage" severity
            ("Sensor '" ++ sensor_name ++ "' (" ++ sensor_ip ++ ") unavailable")
            [sensor_name] (Some probable_cause)).

(* ================================================================== *)
(** * The record store ([models/schema.py], [models/database.py]) *)

(** A row of the [incidents] table. [affected_targets] holds JSON text. *)
Module Incident.
Record t : Type := mk {
  id : Z;
  start_time : datetime;
  end_time : option datetime;
  duration_seconds : option Z;
  incident_type : string;
  severity : string;
  affected_targets : string;
  description : string;
  probable_cause : option string;
  is_resolved : bool
}.
End Incident.

(** The tables that the code below reads or writes, in row order. *)
Record Database : Type := mkDatabase {
  incidents : list Incident.t;
  wifi_metrics : list WiFi.t
}.

Definition empty_database : Database := mkDatabase [] [].

(** The id that SQLite gives to a new row of a table whose key is an
    [INTEGER PRIMARY KEY] without [AUTOINCREMENT]: one more than the
    largest id in the table, and 1 in an empty table. *)
Definition next_rowid (rows : list Incident.t) : Z :=
  1 + fold_right Z.max 0 (map Incident.id rows).

Arguments next_rowid : simpl never.

(** The row that [add_incident] builds from its keyword arguments and
    adds to the table; the arguments are the ones [process_incident] passes. *)
Definition insert_incident (start_time : datetime)
    (incident_type severity affected_targets description : string)
    (probable_cause : option string) (is_resolved : bool) (d : Database)
  : Incident.t * Database :=
  let row := Incident.mk (next_rowid (incidents d)) start_time None None
               incident_type severity affected_targets description
               probable_cause is_resolved in
  (row, mkDatabase (incidents d ++ [row]) (wifi_metrics d)).

(** One keyword argument of [update_incident]. *)
Inductive Assignment : Type :=
| Set_end_time (v : datetime)
| Set_duration_seconds (v : Z)
| Set_is_resolved (v : bool).

(** [setattr(incident, key, value)]. *)
Definition setattr (r : Incident.t) (a : Assignment) : Incident.t :=
  match a with
  | Set_end_time v =>
      Incident.mk (Incident.id r) (Incident.start_time r) (Some v)
        (Incident.duration_seconds r) (Incident.incident_type r)
        (Incident.severity r) (Incident.affected_targets r)
        (Incident.description r) (Incident.probable_cause r)
        (Incident.is_resolved r)
  | Set_duration_seconds v =>
      Incident.mk (Incident.id r) (Incident.start_time r) (Incident.end_time r)
        (Some v) (Incident.incident_type r)
        (Incident.severity r) (Incident.affected_targets r)
        (Incident.description r) (Incident.probable_cause r)
        (Incident.is_resolved r)
  | Set_is_resolved v =>
      Incident.mk (Incident.id r) (Incident.start_time r) (Incident.end_time r)
        (Incident.duration_seconds r) (Incident.incident_type r)
        (Incident.severity r) (Incident.affected_targets r)
        (Incident.description r) (Incident.probable_cause r) v
  end.

(** [for key, value in kwargs.items(): setattr(incident, key, value)]. *)
Definition apply_kwargs (kwargs : list Assignment) (r : Incident.t) : Incident.t :=
  fold_left setattr kwargs r.

(** [session.query(Incident).filter(Incident.id == incident_id).first()]. *)
Definition find_incident (incident_id : Z) (rows : list Incident.t)
  : option Incident.t :=
  find (fun r => Incident.id r =? incident_id) rows.

(** The table after the first row with this id got the assignments. *)
Fixpoint update_first (incident_id : Z) (kwargs : list Assignment)
    (rows : list Incident.t) : list Incident.t :=
  match rows with
  | [] => []
  | r :: rest =>
      if Incident.id r =? incident_id then apply_kwargs kwargs r :: rest
      else r :: update_first incident_id kwargs rest
  end.

Definition write_incident (incident_id : Z) (kwargs : list Assignment)
    (d : Database) : Database :=
  mkDatabase (update_first incident_id kwargs (incidents d)) (wifi_metrics d).

(** [order_by(Incident.start_time)]: rows with the same start keep the
    order of the table. *)
Fixpoint insert_by_start (r : Incident.t) (l : list Incident.t) : list Incident.t :=
  match l with
  | [] => [r]
  | x :: rest =>
      if Incident.start_time x <=? Incident.start_time r
      then x :: insert_by_start r rest
      else r :: l
  end.

Definition order_by_start_time (l : list Incident.t) : list Incident.t :=
  fold_left (fun acc r => insert_by_start r acc) l [].

(** The row passes a filter that is applied only when its argument is given. *)
Definition passes {A : Type} (bound : option A) (test : A -> bool) : bool :=
  match bound with Some b => test b | None => true end.

(** The argument of [if incident_type:], a test of the truth value: an
    empty string counts as no argument. (A [datetime] is always true, so
    that the bounds are tested for [None] only.) *)
Definition given_text (o : option string) : option string :=
  match o with
  | Some EmptyString => None
  | Some s => Some s
  | None => None
  end.

Definition get_incidents (start_time end_time : option datetime)
    (incident_type : option string) (d : Database) : list Incident.t :=
  order_by_start_time
    (filter (fun r =>
       passes start_time (fun s => s <=? Incident.start_time r)
       && passes end_time (fun e => Incident.start_time r <=? e)
       && passes (given_text incident_type)
            (fun t => String.eqb (Incident.incident_type r) t))
       (incidents d)).

Definition get_active_incidents (d : Database) : list Incident.t :=
  filter (fun r => negb (Incident.is_resolved r)) (incidents d).

(** The rows that [cleanup_old_data] leaves: it deletes the rows older
    than the cutoff. *)
Definition delete_older (cutoff : datetime) (d : Database) : Database :=
  mkDatabase
    (filter (fun r => negb (Incident.start_time r <? cutoff)) (incidents d))
    (filter (fun m => negb (WiFi.timestamp m <? cutoff)) (wifi_metrics d)).

(* ================================================================== *)
(** * Computations that mutate a state and may raise *)

(** The exception of a failed commit (any [sqlalchemy] error). *)
Inductive Exn : Type := StoreError.

(** A call either returns or raises; the state it reached is kept in both
    cases, since an exception undoes nothing. *)
Inductive Outcome (S A : Type) : Type :=
| Returned (a : A) (s : S)
| Raised (e : Exn) (s : S).

Arguments Returned {S A} a s.
Arguments Raised {S A} e s.

Definition M (S A : Type) : Type := S -> Outcome S A.

Definition ret {S A : Type} (a : A) : M S A := fun s => Returned a s.

Definition bind {S A B : Type} (m : M S A) (f : A -> M S B) : M S B :=
  fun s =>
    match m s with
    | Returned a s' => f a s'
    | Raised e s' => Raised e s'
    end.

Definition raise {S A : Type} (e : Exn) : M S A := fun s => Raised e s.

Declare Scope py_scope.
Delimit Scope py_scope with py.
Notation "x <- m ;; k" := (bind m (fun x => k))
  (at level 61, m at next level, right associativity) : py_scope.
Notation "m ;; k" := (bind m (fun _ => k))
  (at level 61, right associativity) : py_scope.
Local Open Scope py_scope.

(** [for x in l: body(x)]. *)
Fixpoint for_each {S A : Type} (l : list A) (body : A -> M S unit) : M S unit :=
  match l with
  | [] => ret tt
  | x :: r => body x ;; for_each r body
  end.

Definition final_state {S A : Type} (o : Outcome S A) : S :=
  match o with Returned _ s => s | Raised _ s => s end.

(* ================================================================== *)
(** * Incident lifecycle manager *)

(** The state of an [IncidentDetector] and of the store behind it, with
    the number of clock readings and of commits made so far. *)
Record World : Type := mkWorld {
  active_incidents : dict Z;
  db : Database;
  ticks : nat;
  commits : nat
}.

Definition initial_world (d : Database) : World := mkWorld [] d 0 0.

Definition with_active (w : World) (a : dict Z) : World :=
  mkWorld a (db w) (ticks w) (commits w).

(** The dedup key of [process_incident]. *)
Definition incident_key (incident_data : Descriptor.t) : string :=
  Descriptor.incident_type incident_data ++ ":"
    ++ json_dumps (sorted (Descriptor.affected_targets incident_data)).

Section Environment.

(** The value of the [n]-th call of [datetime.utcnow()]. *)
Variable clock : nat -> datetime.

(** Whether the [n]-th commit that is attempted succeeds. [Database] keeps
    one session for each thread ([scoped_session]) and never rolls it back:
    once a commit of a thread has failed, the later commits of that thread
    fail as well. The commits of one thread are therefore read from an
    oracle that stays false once it is false ([never_rolled_back]); threads
    that share the detector read theirs in the order of their commits. *)
Variable store_ok : nat -> bool.

Definition utcnow : M World datetime :=
  fun w => Returned (clock (ticks w))
             (mkWorld (active_incidents w) (db w) (S (ticks w)) (commits w)).

(** A write to the store: it is applied when its commit succeeds and
    raises, leaving the tables as they were, when it does not. *)
Definition commit {A : Type} (write : Database -> A * Database) : M World A :=
  fun w =>
    if store_ok (commits w) then
      let (a, d) := write (db w) in
      Returned a (mkWorld (active_incidents w) d (ticks w) (S (commits w)))
    else
      Raised StoreError
        (mkWorld (active_incidents w) (db w) (ticks w) (S (commits w))).

(** A query of the store. (In a session whose commit has failed a query
    raises as well. Each check loop begins its iteration with a commit, and
    [stop] runs in the main thread, on a session of its own: the loops
    reach no query in that state.) *)
Definition query {A : Type} (read : Database -> A) : M World A :=
  fun w => Returned (read (db w)) w.

Definition add_incident (start_time : datetime)
    (incident_type severity affected_targets description : string)
    (probable_cause : option string) (is_resolved : bool) : M World Incident.t :=
  commit (insert_incident start_time incident_type severity affected_targets
            description probable_cause is_resolved).

(** [update_incident] commits only when it found the row. *)
Definition update_incident (incident_id : Z) (kwargs : list Assignment)
  : M World (option Incident.t) :=
  incident <- query (fun d => find_incident incident_id (incidents d)) ;;
  match incident with
  | Some r =>
      commit (fun d => (Some (apply_kwargs kwargs r),
                        write_incident incident_id kwargs d))
  | None => ret None
  end.

Definition add_wifi_metric (m : WiFi.t) : M World unit :=
  commit (fun d => (tt, mkDatabase (incidents d) (wifi_metrics d ++ [m]))).

Definition cleanup_old_data (days : Z) : M World unit :=
  now <- utcnow ;;
  commit (fun d => (tt, delete_older (now - timedelta_days days) d)).

Definition set_active (k : string) (v : Z) : M World unit :=
  fun w => Returned tt (with_active w (dict_set k v (active_incidents w))).

Definition del_active (k : string) : M World unit :=
  fun w => Returned tt (with_active w (dict_del k (active_incidents w))).

Definition process_incident (incident_data : Descriptor.t) : M World Z :=
  let key := incident_key incident_data in
  fun w =>
    match dict_get key (active_incidents w) with
    | Some incident_id => Returned incident_id w
    | None =>
        (now <- utcnow ;;
         incident <- add_incident now
                       (Descriptor.incident_type incident_data)
                       (Descriptor.severity incident_data)
                       (json_dumps (Descriptor.affected_targets incident_data))
                       (Descriptor.description incident_data)
                       (Descriptor.probable_cause incident_data)
                       false ;;
         set_active key (Incident.id incident) ;;
         ret (Incident.id incident)) w
    end.

Definition resolve_incident (key : string) : M World unit :=
  fun w =>
    match dict_get key (active_incidents w) with
    | Some incident_id =>
        (end_time <- utcnow ;;
         active <- query get_active_incidents ;;
         match find_incident incident_id active with
         | Some incident =>
             update_incident incident_id
               [Set_end_time end_time;
                Set_duration_seconds
                  (int_total_seconds (end_time - Incident.start_time incident));
                Set_is_resolved true]
         | None =>
             update_incident incident_id
               [Set_end_time end_time; Set_is_resolved true]
         end ;;
         del_active key) w
    | None => Returned tt w
    end.

(** [incident_key not in current_states or not current_states[incident_key]]. *)
Definition no_longer_active (current_states : dict bool) (key : string) : bool :=
  match dict_get key current_states with
  | Some still_active => negb still_active
  | None => true
  end.

Definition check_and_resolve_incidents (current_states : dict bool) : M World unit :=
  fun w =>
    let to_resolve :=
      filter (no_longer_active current_states) (dict_keys (active_incidents w)) in
    for_each to_resolve resolve_incident w.

End Environment.

(* ================================================================== *)
(** * Incident analytics *)

(** The dict that [analyze_incident_patterns] returns. The result for a
    range without incidents has no ["mtbf_seconds"] key: [None] there. *)
Record Analysis : Type := mkAnalysis {
  total_incidents : Z;
  by_type : dict Z;
  by_severity : dict Z;
  avg_duration_seconds : Q;
  total_downtime_seconds : Z;
  most_affected_target : option string;
  mtbf_seconds : option Q
}.

(** [sum(l)]. *)
Definition sum (l : list Z) : Z := fold_left Z.add l 0.

(** [len(l)]. *)
Definition len {A : Type} (l : list A) : Z := Z.of_nat (length l).

(** True division of two integers, the second one not zero. *)
Definition true_div (a b : Z) : Q := (inject_Z a / inject_Z b)%Q.

(** The durations that the loop appends: [if incident.duration_seconds:]
    holds for a duration that is neither [None] nor [0]. *)
Fixpoint collect_durations (l : list Incident.t) : list Z :=
  match l with
  | [] => []
  | r :: rest =>
      if truthy_int (Incident.duration_seconds r)
      then get_default (Incident.duration_seconds r) 0 :: collect_durations rest
      else collect_durations rest
  end.

(** [max(d.items(), key=lambda x: x[1])[0]]: the first key with the
    largest count. *)
Fixpoint max_by_count (best : string * Z) (l : list (string * Z)) : string :=
  match l with
  | [] => fst best
  | x :: r => max_by_count (if snd best <? snd x then x else best) r
  end.

Definition most_affected (counts : dict Z) : option string :=
  match counts with
  | [] => None
  | x :: r => Some (max_by_count x r)
  end.

Section Analytics.

(** [json.loads] on the stored text of [affected_targets]: the list to
    iterate over, or [None] when the text does not parse (the exception is
    caught and the row contributes no target). *)
Variable json_loads : string -> option (list string).

Definition count_targets (counts : dict Z) (r : Incident.t) : dict Z :=
  match json_loads (Incident.affected_targets r) with
  | Some targets => fold_left (fun c target => dict_incr target c) targets counts
  | None => counts
  end.

Definition analyze_incident_patterns (d : Database) (start_time end_time : datetime)
  : Analysis :=
  let found := get_incidents (Some start_time) (Some end_time) None d in
  match found with
  | [] => mkAnalysis 0 [] [] 0%Q 0 None None
  | _ :: _ =>
      let by_type :=
        fold_left (fun c r => dict_incr (Incident.incident_type r) c) found [] in
      let by_severity :=
        fold_left (fun c r => dict_incr (Incident.severity r) c) found [] in
      let durations := collect_durations found in
      let affected := fold_left count_targets found [] in
      let avg_duration :=
        match durations with
        | [] => 0%Q
        | _ :: _ => true_div (sum durations) (len durations)
        end in
      mkAnalysis (len found) by_type by_severity avg_duration (sum durations)
        (most_affected affected)
        (Some match found with
              | [] => 0%Q
              | _ :: _ => (total_seconds (end_time - start_time)
                             / inject_Z (len found))%Q
              end)
  end.

End Analytics.

(* ================================================================== *)
(** * The WiFi check loop ([NetworkMonitorApp._monitor_wifi]) *)

(** The part of a [NetworkMonitorApp] that the WiFi loop touches: the
    detector and the store, [current_state] and [stats]. *)
Record App : Type := mkApp {
  world : World;
  current_state_wifi : option WiFi.t;
  current_state_last_update : option datetime;
  stats_wifi_checks : Z;
  stats_incidents : Z
}.

Definition initial_app (d : Database) : App :=
  mkApp (initial_world d) None None 0 0.

(** A call into the detector or the store from the application. *)
Definition in_world {A : Type} (m : M World A) : M App A :=
  fun a =>
    match m (world a) with
    | Returned x w =>
        Returned x (mkApp w (current_state_wifi a) (current_state_last_update a)
                      (stats_wifi_checks a) (stats_incidents a))
    | Raised e w =>
        Raised e (mkApp w (current_state_wifi a) (current_state_last_update a)
                    (stats_wifi_checks a) (stats_incidents a))
    end.

(** [try: body except Exception: handler]. *)
Definition try_except {S A : Type} (body : M S A) (handler : Exn -> M S A) : M S A :=
  fun s =>
    match body s with
    | Returned a s' => Returned a s'
    | Raised e s' => handler e s'
    end.

Definition is_wifi_key (key : string) : bool :=
  startswith key "wifi_outage:" || startswith key "wifi_degradation:".

Section CheckLoop.

Variable clock : nat -> datetime.
Variable store_ok : nat -> bool.

(** [config["wifi"]["rssi_critical_threshold"]] and
    [config["monitoring"]["data_retention_days"]]. *)
Variable rssi_critical : Z.
Variable retention_days : Z.

Definition record_wifi (wifi_data : WiFi.t) (now : datetime) : M App unit :=
  fun a => Returned tt
    (mkApp (world a) (Some wifi_data) (Some now)
       (stats_wifi_checks a + 1) (stats_incidents a)).

Definition record_incident_count : M App unit :=
  fun a => Returned tt
    (mkApp (world a) (current_state_wifi a) (current_state_last_update a)
       (stats_wifi_checks a) (len (active_incidents (world a)))).

Definition active_keys : M App (list string) :=
  fun a => Returned (dict_keys (active_incidents (world a))) a.

(** The body of the [try] of one iteration; [wifi_data] is what
    [get_wifi_status] returned. It gives the value of [last_cleanup]. *)
Definition wifi_check (wifi_data : WiFi.t) (last_cleanup : datetime)
  : M App datetime :=
  in_world (add_wifi_metric store_ok wifi_data) ;;
  now <- in_world (utcnow clock) ;;
  record_wifi wifi_data now ;;
  match check_wifi_status wifi_data rssi_critical with
  | Some incident =>
      in_world (process_incident clock store_ok incident) ;; ret tt
  | None =>
      keys <- active_keys ;;
      for_each keys (fun key =>
        if is_wifi_key key
        then in_world (resolve_incident clock store_ok key)
        else ret tt)
  end ;;
  record_incident_count ;;
  now <- in_world (utcnow clock) ;;
  if 21600 * MICROSECONDS <? now - last_cleanup then
    in_world (cleanup_old_data clock store_ok retention_days) ;;
    in_world (utcnow clock)
  else ret last_cleanup.

(** One iteration: the exception of the body is logged and dropped. *)
Definition monitor_wifi_iteration (wifi_data : WiFi.t) (last_cleanup : datetime)
  : M App datetime :=
  try_except (wifi_check wifi_data last_cleanup) (fun _ => ret last_cleanup).

(** The loop, with one snapshot for each iteration made while [running]. *)
Fixpoint monitor_wifi_from (snapshots : list WiFi.t) (last_cleanup : datetime)
  : M App unit :=
  match snapshots with
  | [] => ret tt
  | wifi_data :: rest =>
      last_cleanup' <- monitor_wifi_iteration wifi_data last_cleanup ;;
      monitor_wifi_from rest last_cleanup'
  end.

Definition monitor_wifi (snapshots : list WiFi.t) : M App unit :=
  last_cleanup <- in_world (utcnow clock) ;;
  monitor_wifi_from snapshots last_cleanup.

End CheckLoop.

(* ================================================================== *)
(** * Concurrent calls of [process_incident]

    The check loops are threads that call the same detector. The body of
    [process_incident] takes no lock; [Database.add_incident] holds the lock
    of the store for the insertion only. A thread can therefore be
    descheduled between the test of the key, the insertion and the
    registration of the key: these are the steps below. *)

Inductive Thread : Type :=
| Calling (incident_data : Descriptor.t)
| Creating (incident_data : Descriptor.t)
| Registering (incident_data : Descriptor.t) (incident_id : Z)
| Finished (incident_id : Z)
| Failed (e : Exn).

Section Interleaving.

Variable clock : nat -> datetime.
Variable store_ok : nat -> bool.

Definition thread_step (t : Thread) (w : World) : Thread * World :=
  match t with
  | Calling incident_data =>
      match dict_get (incident_key incident_data) (active_incidents w) with
      | Some incident_id => (Finished incident_id, w)
      | None => (Creating incident_data, w)
      end
  | Creating incident_data =>
      match (now <- utcnow clock ;;
             add_incident store_ok now
               (Descriptor.incident_type incident_data)
               (Descriptor.severity incident_data)
               (json_dumps (Descriptor.affected_targets incident_data))
               (Descriptor.description incident_data)
               (Descriptor.probable_cause incident_data)
               false) w with
      | Returned incident w' => (Registering incident_data (Incident.id incident), w')
      | Raised e w' => (Failed e, w')
      end
  | Registering incident_data incident_id =>
      (Finished incident_id,
       with_active w (dict_set (incident_key incident_data) incident_id
                        (active_incidents w)))
  | Finished incident_id => (Finished incident_id, w)
  | Failed e => (Failed e, w)
  end.

(** The thread with the given number makes one step. *)
Fixpoint schedule_step (n : nat) (threads : list Thread) (w : World)
  : list Thread * World :=
  match threads, n with
  | [], _ => ([], w)
  | t :: rest, O => let (t', w') := thread_step t w in (t' :: rest, w')
  | t :: rest, S m => let (rest', w') := schedule_step m rest w in (t :: rest', w')
  end.

(** A schedule names the thread that runs at each step. *)
Fixpoint run_schedule (schedule : list nat) (threads : list Thread) (w : World)
  : list Thread * World :=
  match schedule with
  | [] => (threads, w)
  | n :: rest =>
      let (threads', w') := schedule_step n threads w in
      run_schedule rest threads' w'
  end.

End Interleaving.

(** The number of rows that were added to the [incidents] table. *)
Definition opened (before after : World) : Z :=
  len (incidents (db after)) - len (incidents (db before)).

(* ================================================================== *)
(** * Vocabulary of the properties *)

(** A classifier result with the given type, severity and targets. *)
Definition classified (o : option Descriptor.t)
    (incident_type severity : string) (targets : list string) : Prop :=
  exists d, o = Some d
    /\ Descriptor.incident_type d = incident_type
    /\ Descriptor.severity d = severity
    /\ Descriptor.affected_targets d = targets.

(** The gateway flag that [check_network_connectivity] reads. *)
Definition gateway_reachable (gateway_result : Ping.t) : bool :=
  get_default (Ping.is_reachable gateway_result) false.

Definition gateway_packet_loss (gateway_result : Ping.t) : Z :=
  get_default (Ping.packet_loss gateway_result) 0.

(** The clock never steps back. *)
Definition monotone (clock : nat -> datetime) : Prop :=
  forall i j, (i <= j)%nat -> clock i <= clock j.

(** Every commit from the [n]-th on succeeds. *)
Definition store_ok_from (store_ok : nat -> bool) (n : nat) : Prop :=
  forall m, (n <= m)%nat -> store_ok m = true.


(** The commits of such a session on a store that accepts the commits for
    which [accepts] holds: the [n]-th one succeeds when the store accepts
    it and no commit before it failed. *)
Definition session (accepts : nat -> bool) (n : nat) : bool :=
  forallb accepts (seq 0 (S n)).

(** The open/close pairing of one row. *)
Definition paired (r : Incident.t) : Prop :=
  (Incident.is_resolved r = true <->
     Incident.end_time r <> None /\ Incident.duration_seconds r <> None)
  /\ (forall e d,
        Incident.end_time r = Some e ->
        Incident.duration_seconds r = Some d ->
        d = (e - Incident.start_time r) / MICROSECONDS /\ 0 <= d).

(** The index and the store agree: keys and ids are not repeated and
    every indexed id is the id of an unresolved row. *)
Record consistent (w : World) : Prop := mkConsistent {
  keys_unique : NoDup (dict_keys (active_incidents w));
  ids_distinct : NoDup (map snd (active_incidents w));
  rows_unique : NoDup (map Incident.id (incidents (db w)));
  backed : forall k i, In (k, i) (active_incidents w) ->
           exists r, In r (incidents (db w))
                     /\ Incident.id r = i /\ Incident.is_resolved r = false
}.

(** The row that [process_incident] persists for a descriptor. *)
Definition opened_row (clock : nat -> datetime) (incident_data : Descriptor.t)
    (w : World) : Incident.t :=
  Incident.mk (next_rowid (incidents (db w))) (clock (ticks w)) None None
    (Descriptor.incident_type incident_data)
    (Descriptor.severity incident_data)
    (json_dumps (Descriptor.affected_targets incident_data))
    (Descriptor.description incident_data)
    (Descriptor.probable_cause incident_data)
    false.

(** The keyword arguments that [resolve_incident] passes to
    [update_incident] for the incident with this id. *)
Definition resolve_kwargs (clock : nat -> datetime) (incident_id : Z) (w : World)
  : list Assignment :=
  let end_time := clock (ticks w) in
  match find_incident incident_id (get_active_incidents (db w)) with
  | Some incident =>
      [Set_end_time end_time;
       Set_duration_seconds
         (int_total_seconds (end_time - Incident.start_time incident));
       Set_is_resolved true]
  | None => [Set_end_time end_time; Set_is_resolved true]
  end.

(** No indexed incident starts after the next reading of the clock. *)
Definition timely (clock : nat -> datetime) (w : World) : Prop :=
  forall k i r,
    In (k, i) (active_incidents w) ->
    In r (incidents (db w)) -> Incident.id r = i ->
    Incident.start_time r <= clock (ticks w).

(** The invariant of the lifecycle manager. *)
Definition lifecycle_invariant (clock : nat -> datetime) (w : World) : Prop :=
  consistent w
  /\ timely clock w
  /\ (forall r, In r (incidents (db w)) -> paired r).

(** The pairing of one row as [resolve_incident] writes it: the row is
    resolved if and only if its end time and its duration are set, and the
    duration is [int((end_time - start_time).total_seconds())], the seconds
    from the start to the end truncated towards zero. *)
Definition exactly_paired (r : Incident.t) : Prop :=
  (Incident.is_resolved r = true <->
     Incident.end_time r <> None /\ Incident.duration_seconds r <> None)
  /\ (forall e d,
        Incident.end_time r = Some e ->
        Incident.duration_seconds r = Some d ->
        d = int_total_seconds (e - Incident.start_time r)).

Definition duration_not_negative (r : Incident.t) : Prop :=
  forall d, Incident.duration_seconds r = Some d -> 0 <= d.

(** The row that [resolve_incident] writes for the unresolved row it
    found, at the reading [end_time] of the clock. *)
Definition closed_row (end_time : datetime) (r : Incident.t) : Incident.t :=
  apply_kwargs
    [Set_end_time end_time;
     Set_duration_seconds (int_total_seconds (end_time - Incident.start_time r));
     Set_is_resolved true] r.

(** The index and the store agree and every row is paired as the code
    pairs it. *)
Definition pairing_invariant (w : World) : Prop :=
  consistent w /\ (forall r, In r (incidents (db w)) -> exactly_paired r).

(** The same under a clock that never steps back: no duration is
    negative. *)
Definition steady_invariant (clock : nat -> datetime) (w : World) : Prop :=
  consistent w
  /\ timely clock w
  /\ (forall r, In r (incidents (db w)) -> duration_not_negative r).

(** The calls that the check loops make into the lifecycle manager. *)
Inductive Call : Type :=
| Open (incident_data : Descriptor.t)
| Close (key : string)
| Reconcile (current_states : dict bool).

Section Runs.

Variable clock : nat -> datetime.
Variable store_ok : nat -> bool.

Definition call (c : Call) : M World unit :=
  match c with
  | Open incident_data => process_incident clock store_ok incident_data ;; ret tt
  | Close key => resolve_incident clock store_ok key
  | Reconcile current_states =>
      check_and_resolve_incidents clock store_ok current_states
  end.

(** A sequence of calls; a call that raises is logged by its loop and the
    next call goes on from the state it left. *)
Fixpoint run_calls (calls : list Call) (w : World) : World :=
  match calls with
  | [] => w
  | c :: rest => run_calls rest (final_state (call c w))
  end.

(** The same descriptor fired [n] times in a row; the ids returned. *)
Fixpoint fire (n : nat) (incident_data : Descriptor.t) : M World (list Z) :=
  match n with
  | O => ret []
  | S m =>
      incident_id <- process_incident clock store_ok incident_data ;;
      others <- fire m incident_data ;;
      ret (incident_id :: others)
  end.

End Runs.


(** The duration aggregates as the specification words them: over the
    resolved incidents of the range. *)
Definition spec_resolved_durations (found : list Incident.t) : list Z :=
  map (fun r => get_default (Incident.duration_seconds r) 0)
      (filter Incident.is_resolved found).

Definition spec_avg_duration (found : list Incident.t) : Q :=
  match spec_resolved_durations found with
  | [] => 0%Q
  | _ :: _ => true_div (sum (spec_resolved_durations found))
                       (len (spec_resolved_durations found))
  end.

(** The incidents that the code counts in the duration aggregates. *)
Definition has_duration (r : Incident.t) : bool :=
  truthy_int (Incident.duration_seconds r).

(** The rows of the table whose start is in the range. *)
Definition in_range (start_time end_time : datetime) (d : Database)
  : list Incident.t :=
  filter (fun r => (start_time <=? Incident.start_time r)
                   && (Incident.start_time r <=? end_time)) (incidents d).

(* ================================================================== *)
(** * The rest of the detector, of the monitors and of the application *)

(** [datetime.hour]: a day of a [datetime] has 86400 seconds. *)
Definition hour (t : datetime) : Z := (t / (3600 * MICROSECONDS)) mod 24.

(** [hours[hour] += 1] on a [defaultdict(int)] with integer keys. *)
Fixpoint hour_incr (h : Z) (hours : list (Z * Z)) : list (Z * Z) :=
  match hours with
  | [] => [(h, 1)]
  | (h', n) :: rest =>
      if h =? h' then (h', n + 1) :: rest else (h', n) :: hour_incr h rest
  end.

(** [IncidentDetector.get_problematic_periods]: the incidents of the range
    counted by the hour of the day at which they start. *)
Definition get_problematic_periods (d : Database) (start_time end_time : datetime)
  : list (Z * Z) :=
  fold_left (fun hours incident => hour_incr (hour (Incident.start_time incident)) hours)
    (get_incidents (Some start_time) (Some end_time) None d) [].

(** The key that [_monitor_sensor] builds by hand to close the incident of
    a sensor that answers again. *)
Definition sensor_key (name : string) : string :=
  "sensor_outage:" ++ json_dumps [name].

(** [WiFiMonitor._freq_to_channel]; [//] is the floor division. *)
Definition _freq_to_channel (freq_mhz : Z) : option Z :=
  if (2412 <=? freq_mhz) && (freq_mhz <=? 2484) then
    if freq_mhz =? 2484 then Some 14
    else Some ((freq_mhz - 2412) / 5 + 1)
  else if (5170 <=? freq_mhz) && (freq_mhz <=? 5825) then
    Some ((freq_mhz - 5000) / 5)
  else None.

(** [WiFiMonitor.get_signal_quality_rating]. *)
Definition get_signal_quality_rating (rssi : option Z) : string :=
  match rssi with
  | None => "Unknown"
  | Some rssi =>
      if -50 <=? rssi then "Excellent"
      else if -60 <=? rssi then "Good"
      else if -70 <=? rssi then "Fair"
      else if -80 <=? rssi then "Weak"
      else "Very Weak"
  end.

Definition is_internet_key (key : string) : bool :=
  startswith key "internet_outage:".

(** The application with its [running] flag. *)
Record Process : Type := mkProcess {
  app : App;
  running : bool
}.

Definition in_app {A : Type} (m : M App A) : M Process A :=
  fun p =>
    match m (app p) with
    | Returned x a => Returned x (mkProcess a (running p))
    | Raised e a => Raised e (mkProcess a (running p))
    end.

Section Application.

Variable clock : nat -> datetime.
Variable store_ok : nat -> bool.

(** The incident part of one iteration of [_monitor_network]: the pings
    are done and their results are given. *)
Definition network_incident_check
    (gateway_result : Ping.t) (internet_results : list Ping.t) : M World unit :=
  match check_network_connectivity gateway_result internet_results with
  | Some incident => process_incident clock store_ok incident ;; ret tt
  | None =>
      fun w =>
        for_each (dict_keys (active_incidents w)) (fun key =>
          if is_internet_key key
          then resolve_incident clock store_ok key
          else ret tt) w
  end.

(** [NetworkMonitorApp.stop]. *)
Definition stop : M Process unit :=
  fun p =>
    for_each (dict_keys (active_incidents (world (app p))))
      (fun key => in_app (in_world (resolve_incident clock store_ok key)))
      (mkProcess (app p) false).

End Application.




(** The order of [order_by(Incident.start_time)]. *)
Definition by_start (a b : Incident.t) : Prop :=
  Incident.start_time a <= Incident.start_time b.

(** [hours.get(h)] on the dict of [get_problematic_periods]. *)
Fixpoint hours_get (h : Z) (hours : list (Z * Z)) : option Z :=
  match hours with
  | [] => None
  | (h', n) :: rest => if h =? h' then Some n else hours_get h rest
  end.

(** The entry of a counter for something counted [n] times: no entry at
    all when [n] is 0. *)
Definition counted (n : Z) : option Z := if n =? 0 then None else Some n.

(** The number of elements of a list that pass a test. *)
Definition how_many {A : Type} (test : A -> bool) (l : list A) : Z :=
  len (filter test l).

(** The targets of the incidents, in the order in which
    [analyze_incident_patterns] counts them; a row whose text does not parse
    gives none. *)
Definition all_targets (json_loads : string -> option (list string))
    (found : list Incident.t) : list string :=
  flat_map (fun r => get_default (json_loads (Incident.affected_targets r)) [])
           found.


(* ================================================================== *)
(** * Sample data *)

(** A clock whose readings are 300 seconds apart. *)
Definition sample_clock (n : nat) : datetime := Z.of_nat n * (300 * MICROSECONDS).

Definition store_always_ok (n : nat) : bool := true.


Definition wlan0_down : WiFi.t := WiFi.mk 0 "wlan0" (Some false) None.

Definition wlan0_outage : Descriptor.t :=
  Descriptor.mk "wifi_outage" "critical" "WiFi interface wlan0 disconnected"
    ["wlan0"] None.

Definition gateway_ip : string := "192.168.1.1".

Definition gateway_down : Ping.t := Ping.mk gateway_ip (Some false) (Some 100).
Definition gateway_up : Ping.t := Ping.mk gateway_ip (Some true) (Some 0).
Definition gateway_lossy : Ping.t := Ping.mk gateway_ip (Some true) (Some 50).

Definition internet_down : list Ping.t :=
  [Ping.mk "8.8.8.8" (Some false) (Some 100);
   Ping.mk "1.1.1.1" (Some false) (Some 100)].

Definition internet_up : list Ping.t :=
  [Ping.mk "8.8.8.8" (Some false) (Some 100);
   Ping.mk "1.1.1.1" (Some true) (Some 0)].

Definition internet_outage : Descriptor.t :=
  Descriptor.mk "internet_outage" "warning"
    "Internet connectivity lost (gateway reachable)" ["8.8.8.8"; "1.1.1.1"] None.

Definition sensor_lost : Sensor.t :=
  Sensor.mk (Some "thermo") (Some "192.168.1.50") (Some false).

Definition sensor_fine : Sensor.t :=
  Sensor.mk (Some "thermo") (Some "192.168.1.50") (Some true).

Definition thermo_outage : Descriptor.t :=
  Descriptor.mk "sensor_outage" "warning"
    "Sensor 'thermo' (192.168.1.50) unavailable" ["thermo"] (Some CAUSE_SENSOR).

(** Three open incidents, on a store that was empty. *)
Definition three_open : World :=
  run_calls sample_clock store_always_ok
    [Open wlan0_outage; Open internet_outage; Open thermo_outage]
    (initial_world empty_database).

(** A clock read at 1.0 s, 1.4 s, 2.0 s and 12.0 s. *)
Definition quick_clock (n : nat) : datetime :=
  nth n [1000000; 1400000; 2000000] 12000000.

(** Two outages opened and closed in turn on that clock: the first one
    lasted less than a second, the second one 10 seconds. *)
Definition two_resolved : Database :=
  db (run_calls quick_clock store_always_ok
        [Open wlan0_outage; Close (incident_key wlan0_outage);
         Open wlan0_outage; Close (incident_key wlan0_outage)]
        (initial_world empty_database)).

(** A clock read at 10.0 s and then, the system time having been set
    back in between, at 8.5 s. *)
Definition stepped_back_clock (n : nat) : datetime := nth n [10000000] 8500000.

(** The WiFi outage opened and closed on that clock. *)
Definition stepped_back_outage : Database :=
  db (run_calls stepped_back_clock store_always_ok
        [Open wlan0_outage; Close (incident_key wlan0_outage)]
        (initial_world empty_database)).

(** A store whose second commit fails. *)
Definition store_fails_second (n : nat) : bool := negb (Nat.eqb n 1).

(** The row of the WiFi outage once it was closed 300 seconds after its
    start. *)
Definition closed_outage : Incident.t :=
  Incident.mk 1 0 (Some (300 * MICROSECONDS)) (Some 300)
    "wifi_outage" "critical" (json_dumps ["wlan0"])
    "WiFi interface wlan0 disconnected" None true.

(** Three incidents that start within one hour. *)
Definition three_in_an_hour : Database :=
  mkDatabase
    [Incident.mk 1 (600 * MICROSECONDS) None None "wifi_outage" "critical"
       "[]" "first" None false;
     Incident.mk 2 (1200 * MICROSECONDS) None None "internet_outage" "warning"
       "[]" "second" None false;
     Incident.mk 3 (1800 * MICROSECONDS) None None "sensor_outage" "info"
       "[]" "third" None false]
    [].

Definition one_hour : datetime := 3600 * MICROSECONDS.

(** A clock whose readings are ten days apart. *)
Definition slow_clock (n : nat) : datetime := Z.of_nat n * timedelta_days 10.

(** The WiFi outage opened at the first reading of that clock, and open
    since. *)
Definition old_open : World :=
  run_calls slow_clock store_always_ok [Open wlan0_outage]
    (initial_world empty_database).

(** The state after the retention deleted the row of that outage. *)
Definition after_cleanup : World :=
  final_state (cleanup_old_data slow_clock store_always_ok 7 old_open).

(** The application that runs with the three open incidents. *)
Definition running_three_open : Process :=
  mkProcess (mkApp three_open None None 0 3) true.

(* ================================================================== *)
(** * Properties of the classifier *)

Section ClassifierFacts.

Local Ltac found_descriptor :=
  eexists; split; [reflexivity | repeat split].

(** C4. Network-connectivity classifier priority. The rules of
    [check_network_connectivity] apply in order and the first one that
    matches decides: an unreachable gateway gives [wifi_outage]/[critical]
    on the gateway whatever the internet results are; a reachable gateway
    with no reachable internet target gives [internet_outage]/[warning] on
    the internet targets; otherwise a gateway packet loss above 20 gives
    [wifi_degradation]/[warning]; otherwise there is no incident. *)
Theorem network_connectivity_priority :
  forall (gateway_result : Ping.t) (internet_results : list Ping.t),
    (gateway_reachable gateway_result = false ->
       classified (check_network_connectivity gateway_result internet_results)
         "wifi_outage" "critical" [Ping.target gateway_result])
    /\ (gateway_reachable gateway_result = true ->
        any_reachable internet_results = false ->
        classified (check_network_connectivity gateway_result internet_results)
          "internet_outage" "warning" (map Ping.target internet_results))
    /\ (gateway_reachable gateway_result = true ->
        any_reachable internet_results = true ->
        20 < gateway_packet_loss gateway_result ->
        classified (check_network_connectivity gateway_result internet_results)
          "wifi_degradation" "warning" [Ping.target gateway_result])
    /\ (gateway_reachable gateway_result = true ->
        any_reachable internet_results = true ->
        gateway_packet_loss gateway_result <= 20 ->
        check_network_connectivity gateway_result internet_results = None).
Proof.
  intros g rs.
  unfold check_network_connectivity, gateway_reachable, gateway_packet_loss.
  split; [| split; [| split]].
  - intros ->. cbn. found_descriptor.
  - intros -> ->. cbn. found_descriptor.
  - intros -> -> Hloss. cbn.
    apply Z.ltb_lt in Hloss. rewrite Hloss. found_descriptor.
  - intros -> -> Hloss. cbn.
    apply Z.ltb_ge in Hloss. rewrite Hloss. reflexivity.
Qed.

(** C7. Sensor correlation classification. An available sensor gives no
    incident. An unavailable one gives [sensor_outage]: with severity [info]
    and the cause that names the WiFi/gateway outage when the WiFi flag or
    the gateway flag is false, with severity [warning] and the
    sensor-specific cause when both flags are true. *)
Theorem sensor_correlation :
  forall (sensor_check : Sensor.t) (wifi_ok gateway_ok : bool),
    (truthy (Sensor.is_available sensor_check) = true ->
       check_sensor_status sensor_check wifi_ok gateway_ok = None)
    /\ (truthy (Sensor.is_available sensor_check) = false ->
        wifi_ok = false \/ gateway_ok = false ->
        exists d, check_sensor_status sensor_check wifi_ok gateway_ok = Some d
          /\ Descriptor.incident_type d = "sensor_outage"
          /\ Descriptor.severity d = "info"
          /\ Descriptor.probable_cause d = Some CAUSE_CORRELATED)
    /\ (truthy (Sensor.is_available sensor_check) = false ->
        wifi_ok = true -> gateway_ok = true ->
        exists d, check_sensor_status sensor_check wifi_ok gateway_ok = Some d
          /\ Descriptor.incident_type d = "sensor_outage"
          /\ Descriptor.severity d = "warning"
          /\ Descriptor.probable_cause d = Some CAUSE_SENSOR).
Proof.
  intros s wifi_ok gateway_ok. unfold check_sensor_status.
  split; [| split].
  - intros ->. reflexivity.
  - intros -> Hdown.
    assert (Hcond : negb wifi_ok || negb gateway_ok = true)
      by (destruct Hdown as [-> | ->];
          [reflexivity | apply orb_true_r]).
    rewrite Hcond. found_descriptor.
  - intros -> -> ->. cbn. found_descriptor.
Qed.

(** C10. A reachable gateway and an empty list of internet targets: the
    rule of the internet outage fires over no target at all, and the
    incident is [internet_outage]/[warning] with an empty list of affected
    targets, whatever the packet loss is. *)
Theorem no_internet_target_is_an_outage :
  forall (target : string) (packet_loss : option Z),
    check_network_connectivity (Ping.mk target (Some true) packet_loss) []
    = Some (Descriptor.mk "internet_outage" "warning"
              "Internet connectivity lost (gateway reachable)" [] None).
Proof. intros target packet_loss. reflexivity. Qed.

End ClassifierFacts.

(* ================================================================== *)
(** * Dictionaries *)

Section DictFacts.

Context {V : Type}.
Implicit Types (d : dict V) (k : string) (v : V).

Lemma dict_get_set_same k v d : dict_get k (dict_set k v d) = Some v.
Proof.
  induction d as [| [k' v'] r IH]; cbn.
  - now rewrite String.eqb_refl.
  - destruct (String.eqb k k') eqn:E; cbn.
    + now rewrite String.eqb_refl.
    + now rewrite E.
Qed.

Lemma dict_get_set_other k k' v d :
  k <> k' -> dict_get k' (dict_set k v d) = dict_get k' d.
Proof.
  intros Hne. induction d as [| [k0 v0] r IH]; cbn.
  - destruct (String.eqb_spec k' k); congruence.
  - destruct (String.eqb_spec k k0) as [-> | Hk]; cbn.
    + destruct (String.eqb_spec k' k0); congruence.
    + now rewrite IH.
Qed.

Lemma dict_set_absent k v d :
  dict_get k d = None -> dict_set k v d = (d ++ [(k, v)])%list.
Proof.
  induction d as [| [k' v'] r IH]; cbn; [reflexivity |].
  destruct (String.eqb k k'); [discriminate |].
  intros H. now rewrite IH.
Qed.

Lemma dict_get_absent k d :
  dict_get k d = None <-> ~ In k (dict_keys d).
Proof.
  induction d as [| [k' v'] r IH]; cbn.
  - tauto.
  - destruct (String.eqb_spec k k') as [-> | Hk].
    + split; [discriminate | intros H; exfalso; auto].
    + rewrite IH. intuition congruence.
Qed.

Lemma dict_get_in k v d : dict_get k d = Some v -> In (k, v) d.
Proof.
  induction d as [| [k' v'] r IH]; cbn; [discriminate |].
  destruct (String.eqb_spec k k') as [-> | Hk].
  - intros [= ->]. now left.
  - auto.
Qed.

Lemma in_dict_get k v d :
  NoDup (dict_keys d) -> In (k, v) d -> dict_get k d = Some v.
Proof.
  induction d as [| [k' v'] r IH]; cbn; [tauto |].
  intros Hnd [[= -> ->] | Hin].
  - now rewrite String.eqb_refl.
  - inversion Hnd as [| ? ? Hnotin Hnd']; subst.
    destruct (String.eqb_spec k k') as [-> | Hk]; [| auto].
    exfalso. apply Hnotin. change k' with (fst (k', v)). now apply in_map.
Qed.

Lemma dict_del_in k k' v d :
  In (k', v) (dict_del k d) <-> In (k', v) d /\ k <> k'.
Proof.
  unfold dict_del. rewrite filter_In. cbn.
  destruct (String.eqb_spec k k'); cbn; intuition congruence.
Qed.

End DictFacts.

(* ================================================================== *)
(** * One call of the lifecycle manager *)

Section LifecycleSteps.

Variable clock : nat -> datetime.
Variable store_ok : nat -> bool.

Lemma process_incident_continues incident_data w i :
  dict_get (incident_key incident_data) (active_incidents w) = Some i ->
  process_incident clock store_ok incident_data w = Returned i w.
Proof. intros H. unfold process_incident. now rewrite H. Qed.

Lemma process_incident_opens incident_data w :
  dict_get (incident_key incident_data) (active_incidents w) = None ->
  store_ok (commits w) = true ->
  process_incident clock store_ok incident_data w
  = Returned (next_rowid (incidents (db w)))
      (mkWorld
         (dict_set (incident_key incident_data) (next_rowid (incidents (db w)))
            (active_incidents w))
         (mkDatabase (incidents (db w) ++ [opened_row clock incident_data w])
            (wifi_metrics (db w)))
         (S (ticks w)) (S (commits w))).
Proof.
  intros Habsent Hok. unfold process_incident. rewrite Habsent.
  unfold bind, utcnow, add_incident, commit. cbn. rewrite Hok. reflexivity.
Qed.

Lemma process_incident_raises incident_data w :
  dict_get (incident_key incident_data) (active_incidents w) = None ->
  store_ok (commits w) = false ->
  process_incident clock store_ok incident_data w
  = Raised StoreError
      (mkWorld (active_incidents w) (db w) (S (ticks w)) (S (commits w))).
Proof.
  intros Habsent Hko. unfold process_incident. rewrite Habsent.
  unfold bind, utcnow, add_incident, commit. cbn. rewrite Hko. reflexivity.
Qed.

Lemma fire_continues incident_data w i n :
  dict_get (incident_key incident_data) (active_incidents w) = Some i ->
  fire clock store_ok n incident_data w = Returned (repeat i n) w.
Proof.
  intros H. induction n as [| n IH]; cbn; [reflexivity |].
  unfold bind. rewrite (process_incident_continues _ _ H), IH. reflexivity.
Qed.

End LifecycleSteps.

(* ================================================================== *)
(** * Opening and continuing *)

(** C1. Idempotent continuation. When the dedup key of a descriptor is in
    the open-incident index, [process_incident] returns the indexed id and
    leaves the whole state as it was: no row is added, and neither the index
    nor any row changes; so does any number of firings in a row. When the
    key is not in the index and the store accepts the new row, any number
    [n + 1] of firings in a row adds exactly one unresolved row, returns its
    id every time and leaves the key registered with that id. *)
Theorem idempotent_continuation :
  forall (clock : nat -> datetime) (store_ok : nat -> bool)
         (w : World) (incident_data : Descriptor.t),
    (forall i,
        dict_get (incident_key incident_data) (active_incidents w) = Some i ->
        process_incident clock store_ok incident_data w = Returned i w
        /\ forall n, fire clock store_ok n incident_data w
                     = Returned (repeat i n) w)
    /\ (dict_get (incident_key incident_data) (active_incidents w) = None ->
        store_ok (commits w) = true ->
        forall n, exists row w',
          fire clock store_ok (S n) incident_data w
          = Returned (repeat (Incident.id row) (S n)) w'
          /\ incidents (db w') = (incidents (db w) ++ [row])%list
          /\ Incident.is_resolved row = false
          /\ dict_get (incident_key incident_data) (active_incidents w')
             = Some (Incident.id row)).
Proof.
  intros clock store_ok w incident_data. split.
  - intros i Hopen. split.
    + now apply process_incident_continues.
    + intros n. now apply fire_continues.
  - intros Habsent Hok n.
    exists (opened_row clock incident_data w).
    eexists. cbn [fire]. unfold bind at 1.
    rewrite (process_incident_opens clock store_ok _ _ Habsent Hok).
    unfold bind. rewrite fire_continues with (i := next_rowid (incidents (db w)))
      by (cbn; apply dict_get_set_same).
    cbn. repeat split. apply dict_get_set_same.
Qed.

Section PendingRollback.

Variable clock : nat -> datetime.
Variable store_ok : nat -> bool.
Variable rssi_critical : Z.
Variable retention_days : Z.




End PendingRollback.


(* ================================================================== *)
(** * Analytics *)

Section AnalyticsFacts.

Lemma insert_by_start_length r l :
  length (insert_by_start r l) = S (length l).
Proof.
  induction l as [| x rest IH]; cbn; [reflexivity |].
  destruct (Incident.start_time x <=? Incident.start_time r); cbn; congruence.
Qed.

Lemma order_by_start_time_length l :
  length (order_by_start_time l) = length l.
Proof.
  unfold order_by_start_time.
  enough (H : forall acc,
             length (fold_left (fun a r => insert_by_start r a) l acc)
             = (length l + length acc)%nat)
    by (rewrite H; cbn; lia).
  induction l as [| r rest IH]; intros acc; cbn; [reflexivity |].
  rewrite IH, insert_by_start_length. lia.
Qed.

Lemma insert_by_start_in r x l :
  In x (insert_by_start r l) <-> x = r \/ In x l.
Proof.
  induction l as [| y rest IH]; cbn; [intuition congruence |].
  destruct (Incident.start_time y <=? Incident.start_time r); cbn;
    rewrite ?IH; intuition congruence.
Qed.

Lemma order_by_start_time_in x l :
  In x (order_by_start_time l) <-> In x l.
Proof.
  unfold order_by_start_time.
  enough (H : forall acc,
             In x (fold_left (fun a r => insert_by_start r a) l acc)
             <-> In x l \/ In x acc)
    by (rewrite H; cbn; tauto).
  induction l as [| r rest IH]; intros acc; cbn; [tauto |].
  rewrite IH, insert_by_start_in. intuition congruence.
Qed.

Lemma get_incidents_in_range s e d :
  get_incidents (Some s) (Some e) None d = order_by_start_time (in_range s e d).
Proof.
  unfold get_incidents, in_range. f_equal.
  apply filter_ext. intros r. cbn. now rewrite andb_true_r.
Qed.

Lemma sum_from l : forall a, fold_left Z.add l a = a + sum l.
Proof.
  unfold sum. induction l as [| x r IH]; intros a; cbn; [lia |].
  rewrite IH, (IH x). lia.
Qed.

Lemma sum_cons x l : sum (x :: l) = x + sum l.
Proof. unfold sum at 1. cbn. apply sum_from. Qed.

Lemma collect_durations_counted l :
  collect_durations l
  = map (fun r => get_default (Incident.duration_seconds r) 0)
        (filter has_duration l).
Proof.
  induction l as [| r rest IH]; cbn; [reflexivity |].
  unfold has_duration at 1.
  destruct (truthy_int (Incident.duration_seconds r)); cbn; congruence.
Qed.

Lemma sum_collect_durations l :
  (forall r, In r l -> Incident.is_resolved r = false ->
             Incident.duration_seconds r = None) ->
  sum (collect_durations l) = sum (spec_resolved_durations l).
Proof.
  unfold spec_resolved_durations.
  induction l as [| r rest IH]; intros Hopen; [reflexivity |].
  assert (IH' := IH (fun x Hx => Hopen x (or_intror Hx))).
  assert (Hhead : sum (collect_durations (r :: rest))
                  = get_default (Incident.duration_seconds r) 0
                    + sum (collect_durations rest)).
  { cbn [collect_durations]. unfold truthy_int.
    destruct (Incident.duration_seconds r) as [dur |]; cbn [get_default negb].
    - destruct (Z.eqb_spec dur 0) as [-> | Hnz]; cbn [negb];
        [lia | apply sum_cons].
    - lia. }
  rewrite Hhead. cbn [filter].
  destruct (Incident.is_resolved r) eqn:Hres.
  - cbn [map]. rewrite sum_cons, IH'. reflexivity.
  - rewrite (Hopen r (or_introl eq_refl) Hres). cbn [get_default]. lia.
Qed.

(** C3. MTBF. For a range with at least one incident the result has
    [mtbf_seconds], the length of the range in seconds divided by the number
    of incidents whose start is in the range. For a range with no incident
    the result has no [mtbf_seconds] at all: the function returns its
    early dict, which lacks the key, and the [0] of the last expression is
    never reached. *)
Theorem mtbf_reported :
  forall (json_loads : string -> option (list string))
         (d : Database) (start_time end_time : datetime),
    mtbf_seconds (analyze_incident_patterns json_loads d start_time end_time)
    = match in_range start_time end_time d with
      | [] => None
      | _ :: _ =>
          Some (total_seconds (end_time - start_time)
                / inject_Z (len (in_range start_time end_time d)))%Q
      end.
Proof.
  intros json_loads d s e. unfold analyze_incident_patterns.
  rewrite get_incidents_in_range.
  pose proof (order_by_start_time_length (in_range s e d)) as Hlen.
  unfold len.
  destruct (order_by_start_time (in_range s e d)) as [| r rest] eqn:Hfound;
    destruct (in_range s e d) as [| r' rest'] eqn:Hrange;
    cbn in Hlen; try discriminate; cbn [mtbf_seconds].
  - reflexivity.
  - cbn [length]. now rewrite Hlen.
Qed.

(** C8, as the code has it. The average and the total are taken over the
    incidents of the range whose [duration_seconds] is set and is not 0: the
    total is the sum of their durations and the average is that sum divided
    by their number, or 0 when there is none. An incident without duration
    is left out of both; when the unresolved rows have no duration, as the
    lifecycle manager leaves them, the total is the sum of the durations of
    the resolved incidents of the range. *)
Theorem duration_aggregates :
  forall (json_loads : string -> option (list string))
         (d : Database) (start_time end_time : datetime),
    let found := get_incidents (Some start_time) (Some end_time) None d in
    let counted := filter has_duration found in
    let durations :=
      map (fun r => get_default (Incident.duration_seconds r) 0) counted in
    let result := analyze_incident_patterns json_loads d start_time end_time in
    total_downtime_seconds result = sum durations
    /\ avg_duration_seconds result
       = match durations with
         | [] => 0%Q
         | _ :: _ => true_div (sum durations) (len durations)
         end
    /\ (forall r, In r counted <->
                  In r found /\ exists dur, Incident.duration_seconds r = Some dur
                                            /\ dur <> 0)
    /\ ((forall r, In r (incidents d) -> Incident.is_resolved r = false ->
                   Incident.duration_seconds r = None) ->
        total_downtime_seconds result = sum (spec_resolved_durations found)).
Proof.
  intros json_loads d s e found counted durations result.
  assert (Hdur : collect_durations found = durations)
    by apply collect_durations_counted.
  assert (Htotal : total_downtime_seconds result = sum durations).
  { subst result. unfold analyze_incident_patterns. fold found.
    destruct found as [| r rest] eqn:Hfound.
    - subst durations counted. reflexivity.
    - cbn [total_downtime_seconds]. now rewrite Hdur. }
  split; [exact Htotal | split; [| split]].
  - subst result. unfold analyze_incident_patterns. fold found.
    destruct found as [| r rest] eqn:Hfound.
    + subst durations counted. reflexivity.
    + cbn [avg_duration_seconds]. now rewrite Hdur.
  - intros r. subst counted. rewrite filter_In. unfold has_duration, truthy_int.
    split.
    + intros [Hin Hd]. split; [exact Hin |].
      destruct (Incident.duration_seconds r) as [dur |]; [| discriminate].
      exists dur. split; [reflexivity |].
      intros ->. discriminate.
    + intros [Hin [dur [-> Hnz]]]. split; [exact Hin |].
      destruct (Z.eqb_spec dur 0); [contradiction | reflexivity].
  - intros Hopen. rewrite Htotal, <- Hdur.
    apply sum_collect_durations.
    intros r Hin. apply Hopen.
    subst found. unfold get_incidents in Hin.
    apply (proj1 (order_by_start_time_in r _)) in Hin.
    apply filter_In in Hin. tauto.
Qed.

End AnalyticsFacts.

(* ================================================================== *)
(** * The incident table *)

Section StoreFacts.

Implicit Types (r : Incident.t) (rows : list Incident.t)
               (kwargs : list Assignment).

Lemma setattr_id r a : Incident.id (setattr r a) = Incident.id r.
Proof. now destruct a. Qed.

Lemma setattr_start_time r a :
  Incident.start_time (setattr r a) = Incident.start_time r.
Proof. now destruct a. Qed.

Lemma apply_kwargs_id kwargs : forall r,
  Incident.id (apply_kwargs kwargs r) = Incident.id r.
Proof.
  unfold apply_kwargs.
  induction kwargs as [| a rest IH]; intros r; cbn; [reflexivity |].
  now rewrite IH, setattr_id.
Qed.

Lemma update_first_ids i kwargs rows :
  map Incident.id (update_first i kwargs rows) = map Incident.id rows.
Proof.
  induction rows as [| r rest IH]; cbn; [reflexivity |].
  destruct (Incident.id r =? i); cbn.
  - now rewrite apply_kwargs_id.
  - now rewrite IH.
Qed.

Lemma find_update_first_other i j kwargs rows :
  i <> j ->
  find_incident j (update_first i kwargs rows) = find_incident j rows.
Proof.
  intros Hne. unfold find_incident.
  induction rows as [| r rest IH]; cbn; [reflexivity |].
  destruct (Z.eqb_spec (Incident.id r) i) as [Hi | Hi]; cbn.
  - rewrite apply_kwargs_id.
    destruct (Z.eqb_spec (Incident.id r) j); [congruence | reflexivity].
  - now rewrite IH.
Qed.

Lemma find_update_first_same i kwargs rows :
  find_incident i (update_first i kwargs rows)
  = option_map (apply_kwargs kwargs) (find_incident i rows).
Proof.
  unfold find_incident.
  induction rows as [| r rest IH]; cbn; [reflexivity |].
  destruct (Z.eqb_spec (Incident.id r) i) as [Hi | Hi]; cbn.
  - rewrite apply_kwargs_id.
    destruct (Z.eqb_spec (Incident.id r) i); [reflexivity | contradiction].
  - destruct (Z.eqb_spec (Incident.id r) i); [contradiction | exact IH].
Qed.

Lemma update_first_absent i kwargs rows :
  find_incident i rows = None -> update_first i kwargs rows = rows.
Proof.
  unfold find_incident.
  induction rows as [| r rest IH]; cbn; [reflexivity |].
  destruct (Incident.id r =? i); [discriminate |].
  intros H. now rewrite IH.
Qed.

Lemma update_first_in i kwargs rows x :
  In x (update_first i kwargs rows) ->
  In x rows
  \/ exists r, In r rows /\ Incident.id r = i /\ x = apply_kwargs kwargs r.
Proof.
  induction rows as [| r rest IH]; cbn; [tauto |].
  destruct (Z.eqb_spec (Incident.id r) i) as [Hi | Hi]; cbn.
  - intros [<- | Hin]; [right; exists r; auto | auto].
  - intros [<- | Hin]; [auto |].
    destruct (IH Hin) as [H | [r0 [H0 H1]]]; [auto |].
    right. exists r0. auto.
Qed.

Lemma update_first_keeps i kwargs rows x :
  In x rows -> Incident.id x <> i -> In x (update_first i kwargs rows).
Proof.
  induction rows as [| r rest IH]; cbn; [tauto |].
  intros [-> | Hin] Hne.
  - destruct (Z.eqb_spec (Incident.id x) i); [contradiction | now left].
  - destruct (Incident.id r =? i); right; auto.
Qed.

Lemma find_incident_some i rows r :
  find_incident i rows = Some r -> In r rows /\ Incident.id r = i.
Proof.
  unfold find_incident. intros H. apply find_some in H.
  destruct H as [Hin Hid]. split; [exact Hin | now apply Z.eqb_eq].
Qed.

Lemma same_id_same_row rows a b :
  NoDup (map Incident.id rows) ->
  In a rows -> In b rows -> Incident.id a = Incident.id b -> a = b.
Proof.
  induction rows as [| r rest IH]; cbn; [tauto |].
  intros Hnd Ha Hb Hid. inversion Hnd as [| ? ? Hnotin Hnd']; subst.
  destruct Ha as [-> | Ha], Hb as [-> | Hb]; auto.
  - exfalso. apply Hnotin. rewrite Hid. now apply in_map.
  - exfalso. apply Hnotin. rewrite <- Hid. now apply in_map.
Qed.

Lemma find_incident_unique rows r :
  NoDup (map Incident.id rows) -> In r rows ->
  find_incident (Incident.id r) rows = Some r.
Proof.
  intros Hnd Hin.
  destruct (find_incident (Incident.id r) rows) as [x |] eqn:Hfind.
  - apply find_incident_some in Hfind. destruct Hfind as [Hx Hid].
    f_equal. now apply (same_id_same_row rows).
  - unfold find_incident in Hfind.
    apply (find_none _ _ Hfind) in Hin. cbn in Hin.
    now rewrite Z.eqb_refl in Hin.
Qed.

Lemma NoDup_map_filter (A B : Type) (key : A -> B) (keep : A -> bool) :
  forall xs : list A, NoDup (map key xs) -> NoDup (map key (filter keep xs)).
Proof.
  intros xs. induction xs as [| x rest IH]; cbn; [auto |].
  intros Hnd. inversion Hnd as [| ? ? Hnotin Hnd']; subst.
  destruct (keep x); cbn; [| auto].
  constructor; [| auto].
  intros Hin. apply Hnotin. apply in_map_iff in Hin.
  destruct Hin as [y [Hy Hin]]. apply filter_In in Hin.
  rewrite <- Hy. apply in_map. tauto.
Qed.

Lemma NoDup_snoc {A : Type} (l : list A) (x : A) :
  NoDup l -> ~ In x l -> NoDup (l ++ [x]).
Proof.
  intros Hnd Hx. induction Hnd as [| y l Hy Hnd IH]; cbn.
  - constructor; [tauto | constructor].
  - constructor.
    + rewrite in_app_iff. cbn. intros [H | [H | []]]; [tauto |].
      apply Hx. now left.
    + apply IH. intros H. apply Hx. now right.
Qed.

Lemma find_active_incident (d : Database) r :
  NoDup (map Incident.id (incidents d)) ->
  In r (incidents d) -> Incident.is_resolved r = false ->
  find_incident (Incident.id r) (get_active_incidents d) = Some r.
Proof.
  intros Hnd Hin Hopen. unfold get_active_incidents.
  apply find_incident_unique.
  - now apply NoDup_map_filter.
  - apply filter_In. split; [exact Hin | now rewrite Hopen].
Qed.

Lemma next_rowid_fresh rows r :
  In r rows -> Incident.id r < next_rowid rows.
Proof.
  unfold next_rowid.
  induction rows as [| x rest IH]; cbn [In map fold_right]; [tauto |].
  intros [-> | Hin]; [lia |]. specialize (IH Hin). lia.
Qed.

Lemma next_rowid_not_in rows :
  ~ In (next_rowid rows) (map Incident.id rows).
Proof.
  intros Hin. apply in_map_iff in Hin. destruct Hin as [r [Hid Hin]].
  apply next_rowid_fresh in Hin. lia.
Qed.

End StoreFacts.

(* ================================================================== *)
(** * Closing *)

Section ClosingSteps.

Variable clock : nat -> datetime.
Variable store_ok : nat -> bool.

Lemma resolve_incident_not_open key w :
  dict_get key (active_incidents w) = None ->
  resolve_incident clock store_ok key w = Returned tt w.
Proof. intros H. unfold resolve_incident. now rewrite H. Qed.

(** What one call of [resolve_incident] does for an open key. *)
Lemma resolve_incident_open key w i :
  dict_get key (active_incidents w) = Some i ->
  resolve_incident clock store_ok key w
  = match find_incident i (incidents (db w)) with
    | None =>
        Returned tt (mkWorld (dict_del key (active_incidents w)) (db w)
                       (S (ticks w)) (commits w))
    | Some _ =>
        if store_ok (commits w) then
          Returned tt
            (mkWorld (dict_del key (active_incidents w))
               (write_incident i (resolve_kwargs clock i w) (db w))
               (S (ticks w)) (S (commits w)))
        else
          Raised StoreError
            (mkWorld (active_incidents w) (db w) (S (ticks w)) (S (commits w)))
    end.
Proof.
  intros Hopen. unfold resolve_incident. rewrite Hopen.
  unfold resolve_kwargs, bind, utcnow, query, update_incident, bind, query,
    commit, del_active, ret, with_active. cbn.
  destruct (find_incident i (get_active_incidents (db w))) as [r |]; cbn;
    destruct (find_incident i (incidents (db w))) as [r0 |]; cbn;
    try destruct (store_ok (commits w)); reflexivity.
Qed.

(** The same, when the commit succeeds: the key leaves the index and the
    first row with the id gets the assignments. *)
Lemma resolve_incident_returns key w i :
  dict_get key (active_incidents w) = Some i ->
  store_ok (commits w) = true ->
  exists w',
    resolve_incident clock store_ok key w = Returned tt w'
    /\ active_incidents w' = dict_del key (active_incidents w)
    /\ incidents (db w')
       = update_first i (resolve_kwargs clock i w) (incidents (db w))
    /\ (commits w <= commits w')%nat.
Proof.
  intros Hopen Hok. rewrite (resolve_incident_open _ _ Hopen), Hok.
  destruct (find_incident i (incidents (db w))) eqn:Hfind;
    eexists; (split; [reflexivity |]); cbn; repeat split; try lia.
  now rewrite update_first_absent.
Qed.

Lemma resolve_kwargs_resolves i w r :
  Incident.is_resolved (apply_kwargs (resolve_kwargs clock i w) r) = true
  /\ Incident.end_time (apply_kwargs (resolve_kwargs clock i w) r)
     = Some (clock (ticks w)).
Proof.
  unfold resolve_kwargs.
  destruct (find_incident i (get_active_incidents (db w))); cbn; auto.
Qed.

End ClosingSteps.

(* ================================================================== *)
(** * Reconciling *)

Section DictDeletion.

Context {V : Type}.
Implicit Types (d : dict V) (k : string).

Lemma dict_get_del_same k d : dict_get k (dict_del k d) = None.
Proof.
  unfold dict_del. induction d as [| [k' v'] r IH]; cbn; [reflexivity |].
  destruct (String.eqb k k') eqn:E; cbn; [exact IH | now rewrite E].
Qed.

Lemma dict_get_del_other k k' d :
  k <> k' -> dict_get k' (dict_del k d) = dict_get k' d.
Proof.
  intros Hne. unfold dict_del.
  induction d as [| [k0 v0] r IH]; cbn; [reflexivity |].
  destruct (String.eqb_spec k k0) as [-> | Hk]; cbn.
  - destruct (String.eqb_spec k' k0); [congruence | exact IH].
  - now rewrite IH.
Qed.

Lemma dict_del_absent k d : dict_get k d = None -> dict_del k d = d.
Proof.
  unfold dict_del. induction d as [| [k' v'] r IH]; cbn; [reflexivity |].
  destruct (String.eqb k k'); cbn; [discriminate |].
  intros H. now rewrite IH.
Qed.

Lemma fold_dict_del (l : list string) : forall d,
  fold_left (fun a k => dict_del k a) l d
  = filter (fun kv => negb (existsb (String.eqb (fst kv)) l)) d.
Proof.
  induction l as [| k rest IH]; intros d; cbn.
  - symmetry. apply forallb_filter_id. now apply forallb_forall.
  - rewrite IH. unfold dict_del.
    induction d as [| [k' v'] r IHd]; cbn; [reflexivity |].
    rewrite (String.eqb_sym k' k).
    destruct (String.eqb k k'); cbn; [exact IHd |].
    destruct (existsb (String.eqb k') rest); cbn; now rewrite IHd.
Qed.

Lemma existsb_filter_keys (p : string -> bool) (l : list string) k :
  In k l -> existsb (String.eqb k) (filter p l) = p k.
Proof.
  intros Hin. destruct (p k) eqn:Hp.
  - apply existsb_exists. exists k. split.
    + apply filter_In. auto.
    + apply String.eqb_refl.
  - destruct (existsb (String.eqb k) (filter p l)) eqn:E; [| reflexivity].
    apply existsb_exists in E. destruct E as [x [Hx Heq]].
    apply String.eqb_eq in Heq. subst x.
    apply filter_In in Hx. destruct Hx. congruence.
Qed.

Lemma same_value_same_key (d : dict Z) k k' i :
  NoDup (map snd d) -> In (k, i) d -> In (k', i) d -> k = k'.
Proof.
  induction d as [| [k0 i0] r IH]; cbn; [tauto |].
  intros Hnd H H'. inversion Hnd as [| ? ? Hnotin Hnd']; subst.
  destruct H as [H | H], H' as [H' | H'].
  - congruence.
  - exfalso. apply Hnotin. injection H as _ ->.
    change i with (snd (k', i)). now apply in_map.
  - exfalso. apply Hnotin. injection H' as _ ->.
    change i with (snd (k, i)). now apply in_map.
  - auto.
Qed.

Lemma indexed_or_not (l : list string) (d : dict Z) (j : Z) :
  (exists k, In k l /\ dict_get k d = Some j)
  \/ (forall k, In k l -> dict_get k d <> Some j).
Proof.
  induction l as [| k rest IH]; [right; intros k [] |].
  destruct IH as [[k' [Hin Hget]] | Hnone].
  - left. exists k'. split; [now right | exact Hget].
  - destruct (dict_get k d) as [i |] eqn:Hget.
    + destruct (Z.eq_dec i j) as [-> | Hne].
      * left. exists k. split; [now left | exact Hget].
      * right. intros k0 [<- | Hin]; [congruence | auto].
    + right. intros k0 [<- | Hin]; [congruence | auto].
Qed.

End DictDeletion.

Section Reconcile.

Variable clock : nat -> datetime.
Variable store_ok : nat -> bool.

Lemma store_ok_from_later n m :
  store_ok_from store_ok n -> (n <= m)%nat -> store_ok_from store_ok m.
Proof. intros H Hle k Hk. apply H. lia. Qed.

(** The loop of [check_and_resolve_incidents] over the keys to resolve,
    when every commit succeeds: the keys leave the index, a row whose id
    was indexed under one of them ends resolved, and a row whose id was
    indexed under none of them is not written. *)
Lemma resolve_loop (to_resolve : list string) : forall w,
  store_ok_from store_ok (commits w) ->
  exists w',
    for_each to_resolve (resolve_incident clock store_ok) w = Returned tt w'
    /\ active_incidents w'
       = fold_left (fun a k => dict_del k a) to_resolve (active_incidents w)
    /\ (forall k i r,
          In k to_resolve ->
          dict_get k (active_incidents w) = Some i ->
          find_incident i (incidents (db w)) = Some r ->
          exists r', find_incident i (incidents (db w')) = Some r'
                     /\ Incident.is_resolved r' = true
                     /\ Incident.end_time r' <> None)
    /\ (forall j,
          (forall k, In k to_resolve ->
                     dict_get k (active_incidents w) <> Some j) ->
          find_incident j (incidents (db w')) = find_incident j (incidents (db w))).
Proof.
  induction to_resolve as [| key rest IH]; intros w Hok.
  - exists w. cbn.
    split; [reflexivity | split; [reflexivity | split]];
      [intros k i r [] | reflexivity].
  - cbn [for_each]. unfold bind.
    destruct (dict_get key (active_incidents w)) as [i |] eqn:Hget.
    + destruct (resolve_incident_returns clock store_ok _ _ Hget
                  (Hok _ (Nat.le_refl _)))
        as [w1 [Hrun [Hactive [Hrows Hcommits]]]].
      rewrite Hrun.
      destruct (IH w1 (store_ok_from_later Hok Hcommits))
        as [w' [Hloop [Hindex [Hclosed Hkept]]]].
      exists w'. split; [exact Hloop |].
      split; [cbn; now rewrite Hindex, Hactive |].
      split.
      * intros k0 i0 r Hin Hget0 Hfind.
        assert (Hfind1 : exists r1,
                   find_incident i0 (incidents (db w1)) = Some r1
                   /\ (i0 = i -> Incident.is_resolved r1 = true
                                 /\ Incident.end_time r1 <> None)).
        { rewrite Hrows. destruct (Z.eq_dec i i0) as [-> | Hne].
          - rewrite find_update_first_same, Hfind. cbn.
            eexists. split; [reflexivity |]. intros _.
            destruct (resolve_kwargs_resolves clock i0 w r) as [Hr He].
            split; [exact Hr | congruence].
          - rewrite (find_update_first_other _ _ Hne), Hfind.
            eexists. split; [reflexivity |]. congruence. }
        destruct Hfind1 as [r1 [Hfind1 Hdone]].
        destruct (String.eqb_spec key k0) as [-> | Hother].
        -- assert (i0 = i) as -> by congruence.
           destruct (indexed_or_not rest (active_incidents w1) i)
             as [[k' [Hin' Hget']] | Hnone].
           ++ exact (Hclosed k' i r1 Hin' Hget' Hfind1).
           ++ exists r1. rewrite (Hkept i Hnone). split; [exact Hfind1 | auto].
        -- destruct Hin as [-> | Hin]; [contradiction |].
           apply (Hclosed k0 i0 r1 Hin); [| exact Hfind1].
           now rewrite Hactive, dict_get_del_other.
      * intros j Hnone.
        assert (Hne : i <> j).
        { intros ->. apply (Hnone key); [now left | exact Hget]. }
        rewrite Hkept.
        -- rewrite Hrows. now apply find_update_first_other.
        -- intros k Hin. rewrite Hactive.
           destruct (String.eqb_spec key k) as [-> | Hother].
           ++ rewrite dict_get_del_same. discriminate.
           ++ rewrite dict_get_del_other by exact Hother.
              apply Hnone. now right.
    + rewrite (resolve_incident_not_open clock store_ok _ _ Hget).
      destruct (IH w Hok) as [w' [Hloop [Hindex [Hclosed Hkept]]]].
      exists w'. split; [exact Hloop |].
      split; [cbn; now rewrite Hindex, (dict_del_absent _ _ Hget) |].
      split.
      * intros k0 i0 r [-> | Hin] Hget0 Hfind; [congruence |].
        now apply (Hclosed k0 i0 r).
      * intros j Hnone. apply Hkept. intros k Hin. apply Hnone. now right.
Qed.


End Reconcile.

(* ================================================================== *)
(** * The open/close pairing *)

Section Pairing.

Variable clock : nat -> datetime.
Variable store_ok : nat -> bool.

(** ** What one call does, whatever the clock reads *)

Lemma consistent_counters w t c :
  consistent w -> consistent (mkWorld (active_incidents w) (db w) t c).
Proof. intros [Hkeys Hids Hrows Hbacked]. constructor; assumption. Qed.

Lemma process_incident_consistent incident_data w :
  consistent w ->
  consistent (final_state (process_incident clock store_ok incident_data w)).
Proof.
  intros Hcons.
  destruct (dict_get (incident_key incident_data) (active_incidents w))
    as [i |] eqn:Hget.
  { now rewrite (process_incident_continues clock store_ok _ _ Hget). }
  destruct (store_ok (commits w)) eqn:Hok.
  2:{ rewrite (process_incident_raises clock store_ok _ _ Hget Hok). cbn.
      now apply consistent_counters. }
  rewrite (process_incident_opens clock store_ok _ _ Hget Hok). cbn.
  rewrite (dict_set_absent _ _ _ Hget).
  destruct Hcons as [Hkeys Hids Hrows Hbacked].
  set (row := opened_row clock incident_data w).
  assert (Hfresh : ~ In (next_rowid (incidents (db w)))
                        (map snd (active_incidents w))).
  { intros Hin. apply in_map_iff in Hin. destruct Hin as [[k i] [Hi Hin]].
    cbn [snd] in Hi. subst i.
    destruct (Hbacked _ _ Hin) as [r [Hr [Hid _]]].
    apply next_rowid_fresh in Hr. lia. }
  constructor; cbn.
  - unfold dict_keys. rewrite map_app. apply NoDup_snoc; [exact Hkeys |].
    now apply dict_get_absent.
  - rewrite map_app. now apply NoDup_snoc.
  - rewrite map_app. apply NoDup_snoc; [exact Hrows |].
    apply next_rowid_not_in.
  - intros k i Hin. apply in_app_iff in Hin. destruct Hin as [Hin | [[= <- <-] | []]].
    + destruct (Hbacked _ _ Hin) as [r [Hr Hrest]].
      exists r. split; [apply in_app_iff; now left | exact Hrest].
    + exists row. split; [apply in_app_iff; right; now left | now split].
Qed.

(** A row of the table after [process_incident] was there before, or is
    the row that the call opened. *)
Lemma process_incident_rows incident_data w r :
  In r (incidents (db (final_state
                         (process_incident clock store_ok incident_data w)))) ->
  In r (incidents (db w)) \/ r = opened_row clock incident_data w.
Proof.
  destruct (dict_get (incident_key incident_data) (active_incidents w))
    as [i |] eqn:Hget.
  { rewrite (process_incident_continues clock store_ok _ _ Hget). now left. }
  destruct (store_ok (commits w)) eqn:Hok.
  2:{ rewrite (process_incident_raises clock store_ok _ _ Hget Hok). now left. }
  rewrite (process_incident_opens clock store_ok _ _ Hget Hok). cbn.
  intros Hin. apply in_app_iff in Hin.
  destruct Hin as [Hin | [<- | []]]; [now left | now right].
Qed.

Lemma resolve_incident_consistent key w :
  consistent w ->
  consistent (final_state (resolve_incident clock store_ok key w)).
Proof.
  intros Hcons.
  destruct (dict_get key (active_incidents w)) as [i |] eqn:Hget.
  2:{ now rewrite (resolve_incident_not_open clock store_ok _ _ Hget). }
  rewrite (resolve_incident_open clock store_ok _ _ Hget).
  pose proof Hcons as [Hkeys Hids Hrows Hbacked].
  pose proof (dict_get_in _ _ Hget) as Hin.
  destruct (Hbacked _ _ Hin) as [r [Hr [Hid Hopen]]]. subst i.
  rewrite (find_incident_unique _ _ Hrows Hr).
  destruct (store_ok (commits w)) eqn:Hok; cbn.
  2:{ now apply consistent_counters. }
  assert (Hother : forall k' i', In (k', i') (dict_del key (active_incidents w)) ->
                     In (k', i') (active_incidents w) /\ i' <> Incident.id r).
  { intros k' i' Hin'. apply dict_del_in in Hin'. destruct Hin' as [Hin' Hne].
    split; [exact Hin' |]. intros ->. apply Hne.
    now apply (same_value_same_key (active_incidents w) key k' (Incident.id r)). }
  constructor; cbn.
  - unfold dict_keys, dict_del. now apply NoDup_map_filter.
  - unfold dict_del. now apply NoDup_map_filter.
  - now rewrite update_first_ids.
  - intros k' i' Hin'. destruct (Hother _ _ Hin') as [Hold Hne].
    destruct (Hbacked _ _ Hold) as [r' [Hr' [Hid' Hopen']]].
    exists r'. split; [| now split].
    apply update_first_keeps; [exact Hr' | congruence].
Qed.

(** [resolve_incident] adds no entry to the index and reads the clock at
    most once. *)
Lemma resolve_incident_index key w :
  (forall k i,
      In (k, i) (active_incidents
                   (final_state (resolve_incident clock store_ok key w))) ->
      In (k, i) (active_incidents w))
  /\ (ticks w
      <= ticks (final_state (resolve_incident clock store_ok key w)))%nat.
Proof.
  destruct (dict_get key (active_incidents w)) as [j |] eqn:Hget.
  2:{ rewrite (resolve_incident_not_open clock store_ok _ _ Hget).
      cbn. split; [auto | lia]. }
  rewrite (resolve_incident_open clock store_ok _ _ Hget).
  destruct (find_incident j (incidents (db w))) as [r |];
    [destruct (store_ok (commits w)) |]; cbn;
    (split; [| lia]); intros k i Hin; try exact Hin;
    now apply dict_del_in in Hin.
Qed.

(** A row of the table after [resolve_incident] was there before, or is
    the row of the key, closed at the reading of the clock. *)
Lemma resolve_incident_rows key w r' :
  consistent w ->
  In r' (incidents (db (final_state (resolve_incident clock store_ok key w)))) ->
  In r' (incidents (db w))
  \/ exists r,
       In (key, Incident.id r) (active_incidents w)
       /\ In r (incidents (db w))
       /\ r' = closed_row (clock (ticks w)) r.
Proof.
  intros [Hkeys Hids Hrows Hbacked].
  destruct (dict_get key (active_incidents w)) as [i |] eqn:Hget.
  2:{ rewrite (resolve_incident_not_open clock store_ok _ _ Hget). now left. }
  rewrite (resolve_incident_open clock store_ok _ _ Hget).
  pose proof (dict_get_in _ _ Hget) as Hin.
  destruct (Hbacked _ _ Hin) as [r [Hr [Hid Hopen]]]. subst i.
  rewrite (find_incident_unique _ _ Hrows Hr).
  destruct (store_ok (commits w)) eqn:Hok; cbn; [| now left].
  intros Hr'. apply update_first_in in Hr'.
  destruct Hr' as [Hr' | [r0 [Hr0 [Hid0 ->]]]]; [now left |].
  assert (r0 = r) as -> by now apply (same_id_same_row (incidents (db w))).
  right. exists r. split; [exact Hin | split; [exact Hr |]].
  unfold resolve_kwargs, closed_row.
  now rewrite (find_active_incident _ _ Hrows Hr Hopen).
Qed.

(** ** From one call to a sequence of calls *)

Section Preserved.

Variable invariant : World -> Prop.

Hypothesis process_incident_keeps : forall incident_data w,
  invariant w ->
  invariant (final_state (process_incident clock store_ok incident_data w)).

Hypothesis resolve_incident_keeps : forall key w,
  invariant w ->
  invariant (final_state (resolve_incident clock store_ok key w)).

Lemma resolve_loop_keeps (keys : list string) : forall w,
  invariant w ->
  invariant (final_state (for_each keys (resolve_incident clock store_ok) w)).
Proof.
  induction keys as [| key rest IH]; intros w Hinv; [exact Hinv |].
  cbn [for_each]. unfold bind.
  pose proof (resolve_incident_keeps key Hinv) as Hstep.
  destruct (resolve_incident clock store_ok key w) as [[] w1 | e w1]; cbn in Hstep.
  - now apply IH.
  - exact Hstep.
Qed.

Lemma call_keeps (c : Call) w :
  invariant w -> invariant (final_state (call clock store_ok c w)).
Proof.
  intros Hinv. destruct c as [incident_data | key | current_states]; cbn.
  - unfold bind, ret.
    pose proof (process_incident_keeps incident_data Hinv) as Hstep.
    now destruct (process_incident clock store_ok incident_data w).
  - now apply resolve_incident_keeps.
  - unfold check_and_resolve_incidents. now apply resolve_loop_keeps.
Qed.

Lemma run_calls_keeps (calls : list Call) : forall w,
  invariant w -> invariant (run_calls clock store_ok calls w).
Proof.
  induction calls as [| c rest IH]; intros w Hinv; cbn; [exact Hinv |].
  apply IH. now apply call_keeps.
Qed.

End Preserved.

(** ** The pairing that the code writes *)

Lemma opened_row_exactly_paired incident_data w :
  exactly_paired (opened_row clock incident_data w).
Proof.
  unfold exactly_paired, opened_row. cbn. split.
  - split; [discriminate | intros [H _]; congruence].
  - intros e d H. discriminate.
Qed.

Lemma closed_row_exactly_paired end_time r :
  exactly_paired (closed_row end_time r).
Proof.
  unfold exactly_paired, closed_row. cbn. split.
  - split; [intros _; split; discriminate | reflexivity].
  - intros e d [= <-] [= <-]. reflexivity.
Qed.

Lemma run_calls_exactly_paired (calls : list Call) (w : World) :
  pairing_invariant w ->
  pairing_invariant (run_calls clock store_ok calls w).
Proof.
  apply run_calls_keeps.
  - intros incident_data w0 [Hcons Hrows].
    split; [now apply process_incident_consistent |].
    intros r Hr. apply process_incident_rows in Hr.
    destruct Hr as [Hr | ->]; [now apply Hrows | apply opened_row_exactly_paired].
  - intros key w0 [Hcons Hrows].
    split; [now apply resolve_incident_consistent |].
    intros r Hr. apply (@resolve_incident_rows key _ _ Hcons) in Hr.
    destruct Hr as [Hr | [r0 [_ [_ ->]]]];
      [now apply Hrows | apply closed_row_exactly_paired].
Qed.

(** ** Under a clock that never steps back *)

Hypothesis clock_monotone : monotone clock.

Lemma process_incident_timely incident_data w :
  consistent w -> timely clock w ->
  timely clock (final_state (process_incident clock store_ok incident_data w)).
Proof.
  intros [Hkeys Hids Hrows Hbacked] Htimely.
  assert (Hstep : clock (ticks w) <= clock (S (ticks w)))
    by (apply clock_monotone; lia).
  destruct (dict_get (incident_key incident_data) (active_incidents w))
    as [i |] eqn:Hget.
  { now rewrite (process_incident_continues clock store_ok _ _ Hget). }
  destruct (store_ok (commits w)) eqn:Hok.
  2:{ rewrite (process_incident_raises clock store_ok _ _ Hget Hok). cbn.
      intros k i r Hin Hr Hid. cbn in *.
      specialize (Htimely k i r Hin Hr Hid). lia. }
  rewrite (process_incident_opens clock store_ok _ _ Hget Hok). cbn.
  rewrite (dict_set_absent _ _ _ Hget).
  intros k i r Hin Hr Hid. cbn in *.
  apply in_app_iff in Hr. destruct Hr as [Hr | [<- | []]]; [| cbn; lia].
  apply in_app_iff in Hin. destruct Hin as [Hin | [[= <- <-] | []]].
  - specialize (Htimely k i r Hin Hr Hid). lia.
  - apply next_rowid_fresh in Hr. lia.
Qed.

Lemma resolve_incident_timely key w :
  consistent w -> timely clock w ->
  timely clock (final_state (resolve_incident clock store_ok key w)).
Proof.
  intros Hcons Htimely k i r' Hin Hr' Hid.
  destruct (resolve_incident_index key w) as [Hindex Hticks].
  specialize (clock_monotone Hticks).
  apply Hindex in Hin.
  apply (@resolve_incident_rows key _ _ Hcons) in Hr'.
  destruct Hr' as [Hr' | [r [Hkey [Hr ->]]]].
  - specialize (Htimely k i r' Hin Hr' Hid). lia.
  - specialize (Htimely key (Incident.id r) r Hkey Hr eq_refl).
    unfold closed_row. cbn. lia.
Qed.

Lemma paired_opened_row incident_data w :
  paired (opened_row clock incident_data w).
Proof.
  unfold paired, opened_row. cbn. split.
  - split; [discriminate | intros [H _]; congruence].
  - intros e d H. discriminate.
Qed.

Lemma paired_closed_row r end_time :
  Incident.start_time r <= end_time -> paired (closed_row end_time r).
Proof.
  intros Hle. unfold paired, closed_row. cbn. split.
  - split; [intros _; split; discriminate | reflexivity].
  - intros e d [= <-] [= <-]. unfold int_total_seconds, MICROSECONDS.
    rewrite Z.quot_div_nonneg by lia.
    split; [reflexivity | apply Z.div_pos; lia].
Qed.

Lemma closed_row_not_negative r end_time :
  Incident.start_time r <= end_time ->
  duration_not_negative (closed_row end_time r).
Proof.
  intros Hle d. unfold closed_row. cbn. intros [= <-].
  unfold int_total_seconds, MICROSECONDS. apply Z.quot_pos; lia.
Qed.

Lemma run_calls_invariant (calls : list Call) : forall w,
  lifecycle_invariant clock w ->
  lifecycle_invariant clock (run_calls clock store_ok calls w).
Proof.
  apply run_calls_keeps.
  - intros incident_data w [Hcons [Htimely Hrows]].
    split; [now apply process_incident_consistent |].
    split; [now apply process_incident_timely |].
    intros r Hr. apply process_incident_rows in Hr.
    destruct Hr as [Hr | ->]; [now apply Hrows | apply paired_opened_row].
  - intros key w [Hcons [Htimely Hrows]].
    split; [now apply resolve_incident_consistent |].
    split; [now apply resolve_incident_timely |].
    intros r Hr. apply (@resolve_incident_rows key _ _ Hcons) in Hr.
    destruct Hr as [Hr | [r0 [Hkey [Hr0 ->]]]]; [now apply Hrows |].
    apply paired_closed_row. now apply (Htimely key (Incident.id r0) r0).
Qed.

Lemma run_calls_not_negative (calls : list Call) : forall w,
  steady_invariant clock w ->
  steady_invariant clock (run_calls clock store_ok calls w).
Proof.
  apply run_calls_keeps.
  - intros incident_data w [Hcons [Htimely Hrows]].
    split; [now apply process_incident_consistent |].
    split; [now apply process_incident_timely |].
    intros r Hr. apply process_incident_rows in Hr.
    destruct Hr as [Hr | ->]; [now apply Hrows |].
    intros d. unfold opened_row. cbn. discriminate.
  - intros key w [Hcons [Htimely Hrows]].
    split; [now apply resolve_incident_consistent |].
    split; [now apply resolve_incident_timely |].
    intros r Hr. apply (@resolve_incident_rows key _ _ Hcons) in Hr.
    destruct Hr as [Hr | [r0 [Hkey [Hr0 ->]]]]; [now apply Hrows |].
    apply closed_row_not_negative. now apply (Htimely key (Incident.id r0) r0).
Qed.

Lemma initial_world_consistent (d : Database) :
  NoDup (map Incident.id (incidents d)) -> consistent (initial_world d).
Proof.
  intros Hrows. constructor; cbn.
  - constructor.
  - constructor.
  - exact Hrows.
  - intros k i [].
Qed.

Lemma initial_world_invariant (d : Database) :
  NoDup (map Incident.id (incidents d)) ->
  (forall r, In r (incidents d) -> paired r) ->
  lifecycle_invariant clock (initial_world d).
Proof.
  intros Hrows Hpaired.
  split; [now apply initial_world_consistent | split; [| exact Hpaired]].
  intros k i r [].
Qed.

End Pairing.

(** C2. Open/close pairing invariant. Take a store whose rows have distinct
    ids and are paired as the code pairs them (the empty store is one) and
    a detector started on it. After any sequence of [process_incident],
    [resolve_incident] and [check_and_resolve_incidents] calls, whatever
    the clock reads and whatever commits fail, every incident row is
    resolved if and only if both its end time and its duration are set, and
    a duration that is set next to an end time is
    [int((end_time - start_time).total_seconds())]: the seconds from the
    start to the end, truncated towards zero. The duration is not negative
    when, moreover, the clock never steps back and no duration of the
    store was negative to begin with; [resolve_incident] reads the wall
    clock and has no guard of its own. *)
Theorem open_close_pairing :
  forall (clock : nat -> datetime) (store_ok : nat -> bool)
         (d : Database) (calls : list Call) (r : Incident.t),
    NoDup (map Incident.id (incidents d)) ->
    (forall r0, In r0 (incidents d) -> exactly_paired r0) ->
    In r (incidents (db (run_calls clock store_ok calls (initial_world d)))) ->
    exactly_paired r
    /\ (monotone clock ->
        (forall r0, In r0 (incidents d) -> duration_not_negative r0) ->
        duration_not_negative r).
Proof.
  intros clock store_ok d calls r Hrows Hpaired Hin.
  pose proof (initial_world_consistent d Hrows) as Hcons.
  split.
  - destruct (@run_calls_exactly_paired clock store_ok calls (initial_world d)
                (conj Hcons Hpaired))
      as [_ Hall].
    now apply Hall.
  - intros Hmono Hpositive.
    assert (Hstart : steady_invariant clock (initial_world d)).
    { split; [exact Hcons | split; [| exact Hpositive]]. intros k i r0 []. }
    destruct (@run_calls_not_negative clock store_ok Hmono calls
                (initial_world d) Hstart)
      as [_ [_ Hall]].
    now apply Hall.
Qed.

(* ================================================================== *)
(** * Concurrent firings *)

Section ThreadSteps.

Variable clock : nat -> datetime.
Variable store_ok : nat -> bool.

Lemma calling_found incident_data w i :
  dict_get (incident_key incident_data) (active_incidents w) = Some i ->
  thread_step clock store_ok (Calling incident_data) w = (Finished i, w).
Proof. intros H. cbn. now rewrite H. Qed.

Lemma calling_not_found incident_data w :
  dict_get (incident_key incident_data) (active_incidents w) = None ->
  thread_step clock store_ok (Calling incident_data) w
  = (Creating incident_data, w).
Proof. intros H. cbn. now rewrite H. Qed.

Lemma creating_commits incident_data w :
  store_ok (commits w) = true ->
  thread_step clock store_ok (Creating incident_data) w
  = (Registering incident_data (next_rowid (incidents (db w))),
     mkWorld (active_incidents w)
       (mkDatabase (incidents (db w) ++ [opened_row clock incident_data w])
          (wifi_metrics (db w)))
       (S (ticks w)) (S (commits w))).
Proof.
  intros Hok. unfold thread_step, bind, utcnow, add_incident, commit. cbn.
  now rewrite Hok.
Qed.

Lemma creating_fails incident_data w :
  store_ok (commits w) = false ->
  thread_step clock store_ok (Creating incident_data) w
  = (Failed StoreError,
     mkWorld (active_incidents w) (db w) (S (ticks w)) (S (commits w))).
Proof.
  intros Hko. unfold thread_step, bind, utcnow, add_incident, commit. cbn.
  now rewrite Hko.
Qed.

(** The three steps of a thread that nothing interrupts are the call of
    [process_incident]. *)
Lemma uninterrupted_thread incident_data w :
  run_schedule clock store_ok [0; 0; 0]%nat [Calling incident_data] w
  = match process_incident clock store_ok incident_data w with
    | Returned i w' => ([Finished i], w')
    | Raised e w' => ([Failed e], w')
    end.
Proof.
  cbn [run_schedule schedule_step].
  destruct (dict_get (incident_key incident_data) (active_incidents w))
    as [i |] eqn:Hget.
  - rewrite (calling_found _ _ Hget), (process_incident_continues _ _ _ _ Hget).
    reflexivity.
  - rewrite (calling_not_found _ _ Hget).
    destruct (store_ok (commits w)) eqn:Hok.
    + rewrite (creating_commits _ _ Hok), (process_incident_opens _ _ _ _ Hget Hok).
      reflexivity.
    + rewrite (creating_fails _ _ Hok), (process_incident_raises _ _ _ _ Hget Hok).
      reflexivity.
Qed.

Lemma run_first t others rest w :
  run_schedule clock store_ok (0%nat :: rest) (t :: others) w
  = run_schedule clock store_ok rest
      (fst (thread_step clock store_ok t w) :: others)
      (snd (thread_step clock store_ok t w)).
Proof. cbn. now destruct (thread_step clock store_ok t w). Qed.

Lemma run_second t0 t others rest w :
  run_schedule clock store_ok (1%nat :: rest) (t0 :: t :: others) w
  = run_schedule clock store_ok rest
      (t0 :: fst (thread_step clock store_ok t w) :: others)
      (snd (thread_step clock store_ok t w)).
Proof. cbn. now destruct (thread_step clock store_ok t w). Qed.

Lemma opened_one_row w a t c row :
  opened w (mkWorld a (mkDatabase (incidents (db w) ++ [row]) (wifi_metrics (db w))) t c)
  = 1.
Proof. unfold opened, len. cbn. rewrite length_app. cbn. lia. Qed.

Lemma opened_no_row w a t c : opened w (mkWorld a (db w) t c) = 0.
Proof. unfold opened. cbn. lia. Qed.

End ThreadSteps.

(** C9, as the code has it. [process_incident] takes no lock, so the test
    of the key, the insertion and the registration are atomic only when the
    calls do not overlap. Two firings for the same key that run one after
    the other, the second starting when the first is over, open at most one
    row between them, and when the first returns an id the second returns
    the same id. *)
Theorem serial_firings_open_once :
  forall (clock : nat -> datetime) (store_ok : nat -> bool)
         (w : World) (incident_data : Descriptor.t),
    let after :=
      run_schedule clock store_ok [0; 0; 0; 1; 1; 1]%nat
        [Calling incident_data; Calling incident_data] w in
    opened w (snd after) <= 1
    /\ (forall i, nth 0 (fst after) (Failed StoreError) = Finished i ->
                  nth 1 (fst after) (Failed StoreError) = Finished i).
Proof.
  intros clock store_ok w incident_data after. subst after.
  destruct (dict_get (incident_key incident_data) (active_incidents w))
    as [i |] eqn:Hget.
  - rewrite run_first, (calling_found clock store_ok incident_data w Hget).
    cbn [fst snd].
    do 2 (rewrite run_first; cbn [thread_step fst snd]).
    rewrite run_second, (calling_found clock store_ok incident_data w Hget).
    cbn [fst snd].
    do 2 (rewrite run_second; cbn [thread_step fst snd]).
    cbn [run_schedule fst snd nth].
    split; [unfold opened; lia | auto].
  - rewrite run_first, (calling_not_found clock store_ok incident_data w Hget).
    cbn [fst snd]. rewrite run_first.
    destruct (store_ok (commits w)) eqn:Hok.
    + rewrite (creating_commits clock store_ok incident_data w Hok).
      cbn [fst snd]. rewrite run_first. cbn [thread_step fst snd].
      rewrite run_second.
      rewrite calling_found with (i := next_rowid (incidents (db w)))
        by (cbn; apply dict_get_set_same).
      cbn [fst snd].
      do 2 (rewrite run_second; cbn [thread_step fst snd]).
      cbn [run_schedule fst snd nth]. split; [| auto].
      unfold with_active. cbn [db ticks commits].
      rewrite opened_one_row. lia.
    + rewrite (creating_fails clock store_ok incident_data w Hok).
      cbn [fst snd]. rewrite run_first. cbn [thread_step fst snd].
      rewrite run_second, calling_not_found by exact Hget.
      cbn [fst snd]. rewrite run_second.
      destruct (store_ok (S (commits w))) eqn:Hok2.
      * rewrite creating_commits by exact Hok2.
        cbn [fst snd]. rewrite run_second. cbn [thread_step fst snd].
        cbn [run_schedule fst snd nth]. split; [| discriminate].
        unfold with_active. cbn [db ticks commits active_incidents].
        rewrite opened_one_row. lia.
      * rewrite creating_fails by exact Hok2.
        cbn [fst snd]. rewrite run_second. cbn [thread_step fst snd].
        cbn [run_schedule fst snd nth]. split; [| discriminate].
        cbn [db]. rewrite opened_no_row. lia.
Qed.

(** C9, as the specification has it, fails: with the two threads taking
    turns, both find the key absent, both insert a row, and the second
    registration overwrites the first. *)
Lemma interleaved_firings_open_twice :
  ~ (forall schedule : list nat,
       opened (initial_world empty_database)
         (snd (run_schedule sample_clock store_always_ok schedule
                 [Calling wlan0_outage; Calling wlan0_outage]
                 (initial_world empty_database))) <= 1).
Proof.
  intros H. specialize (H [0; 1; 0; 1; 0; 1]%nat).
  vm_compute in H. apply H. reflexivity.
Qed.

(** What the interleaving leaves: two rows for one key, and the index
    that knows the second one only. *)
Example interleaved_firings_state :
  let after :=
    run_schedule sample_clock store_always_ok [0; 1; 0; 1; 0; 1]%nat
      [Calling wlan0_outage; Calling wlan0_outage]
      (initial_world empty_database) in
  fst after = [Finished 1; Finished 2]
  /\ map Incident.id (incidents (db (snd after))) = [1; 2]
  /\ active_incidents (snd after) = [(incident_key wlan0_outage, 2)].
Proof. vm_compute. repeat split. Qed.

(* ================================================================== *)
(** * The properties on the sample data *)

Lemma sample_clock_monotone : monotone sample_clock.
Proof.
  intros i j Hle. unfold sample_clock, MICROSECONDS. nia.
Qed.

Lemma three_open_invariant : lifecycle_invariant sample_clock three_open.
Proof.
  unfold three_open. apply run_calls_invariant.
  - exact sample_clock_monotone.
  - apply initial_world_invariant; cbn; [constructor | tauto].
Qed.

Example three_open_index :
  active_incidents three_open
  = [(incident_key wlan0_outage, 1); (incident_key internet_outage, 2);
     (incident_key thermo_outage, 3)].
Proof. reflexivity. Qed.

Example sample_descriptors :
  check_network_connectivity gateway_up internet_down = Some internet_outage
  /\ check_sensor_status sensor_lost true true = Some thermo_outage.
Proof. split; reflexivity. Qed.

Example two_resolved_rows :
  map (fun r => (Incident.is_resolved r, Incident.duration_seconds r))
      (incidents two_resolved)
  = [(true, Some 0); (true, Some 10)].
Proof. reflexivity. Qed.

(** The scenario of the specification: the interface goes down, the
    incident is opened with id 1, and 300 seconds later it is closed with a
    duration of 300 seconds. *)
Example wifi_outage_scenario :
  check_wifi_status wlan0_down (-80) = Some wlan0_outage
  /\ incidents (db (run_calls sample_clock store_always_ok
                      [Open wlan0_outage; Close (incident_key wlan0_outage)]
                      (initial_world empty_database)))
     = [closed_outage].
Proof. split; reflexivity. Qed.

(** Three incidents in a range of 3600 seconds: 1200 seconds. *)
Example mtbf_of_three_incidents :
  exists q,
    mtbf_seconds (analyze_incident_patterns (fun _ => None) three_in_an_hour
                    0 one_hour) = Some q
    /\ (q == 1200)%Q.
Proof. eexists. split; [reflexivity | reflexivity]. Qed.

(** No incident in the range: the result has no [mtbf_seconds]. *)
Example mtbf_missing_for_empty_store :
  mtbf_seconds (analyze_incident_patterns (fun _ => None) empty_database
                  0 one_hour) = None.
Proof. reflexivity. Qed.

(** C2, as the specification has it, fails: [resolve_incident] subtracts
    two readings of the wall clock and stores the result as it is. With
    the clock set back by 1.5 seconds between the open and the close, the
    lifecycle calls leave a resolved row whose duration is -1. *)
Lemma negative_duration_after_clock_step :
  ~ (forall r, In r (incidents stepped_back_outage) ->
               exactly_paired r /\ duration_not_negative r).
Proof.
  intros H.
  destruct (H (closed_row 8500000 (opened_row stepped_back_clock wlan0_outage
                                     (initial_world empty_database)))
              (or_introl eq_refl)) as [_ Hsign].
  specialize (Hsign (-1) eq_refl). lia.
Qed.

(** The row that the clock step leaves; a step of less than a second
    would leave the duration 0, since [int] truncates towards zero. *)
Example stepped_back_outage_row :
  map (fun r => (Incident.start_time r, Incident.end_time r,
                 Incident.duration_seconds r, Incident.is_resolved r))
      (incidents stepped_back_outage)
  = [(10000000, Some 8500000, Some (-1), true)]
  /\ int_total_seconds (9500000 - 10000000) = 0.
Proof. split; reflexivity. Qed.


(** What the three iterations leave: no incident, the metric of the first
    iteration, and four commits attempted, two in the first iteration and
    one in each of the others. *)
Example failed_open_state :
  let after :=
    world (final_state
             (monitor_wifi sample_clock (session store_fails_second)
                (-80) 7 [wlan0_down; wlan0_down; wlan0_down]
                (initial_app empty_database))) in
  incidents (db after) = []
  /\ wifi_metrics (db after) = [wlan0_down]
  /\ active_incidents after = []
  /\ commits after = 4%nat.
Proof. vm_compute. repeat split. Qed.

(** C8, as the specification has it, fails: of two resolved incidents that
    lasted 0 and 10 seconds the code averages the second one only and
    reports 10, where the average over the resolved incidents is 5. *)
Lemma zero_duration_not_averaged :
  ~ Qeq (avg_duration_seconds
           (analyze_incident_patterns (fun _ => None) two_resolved 0 one_hour))
        (spec_avg_duration
           (get_incidents (Some 0) (Some one_hour) None two_resolved)).
Proof. intros H. vm_compute in H. discriminate H. Qed.

Lemma network_connectivity_priority_witness :
  classified (check_network_connectivity gateway_down internet_down)
    "wifi_outage" "critical" [gateway_ip]
  /\ classified (check_network_connectivity gateway_up internet_down)
       "internet_outage" "warning" ["8.8.8.8"; "1.1.1.1"]
  /\ classified (check_network_connectivity gateway_lossy internet_up)
       "wifi_degradation" "warning" [gateway_ip]
  /\ check_network_connectivity gateway_up internet_up = None.
Proof.
  split; [| split; [| split]].
  - apply (proj1 (network_connectivity_priority gateway_down internet_down)).
    reflexivity.
  - apply (proj1 (proj2 (network_connectivity_priority gateway_up internet_down)));
      reflexivity.
  - apply (proj1 (proj2 (proj2
             (network_connectivity_priority gateway_lossy internet_up))));
      reflexivity.
  - apply (proj2 (proj2 (proj2
             (network_connectivity_priority gateway_up internet_up))));
      [reflexivity | reflexivity | vm_compute; discriminate].
Defined.

Lemma sensor_correlation_witness :
  check_sensor_status sensor_fine true true = None
  /\ (exists d, check_sensor_status sensor_lost false true = Some d
        /\ Descriptor.incident_type d = "sensor_outage"
        /\ Descriptor.severity d = "info"
        /\ Descriptor.probable_cause d = Some CAUSE_CORRELATED)
  /\ (exists d, check_sensor_status sensor_lost true true = Some d
        /\ Descriptor.incident_type d = "sensor_outage"
        /\ Descriptor.severity d = "warning"
        /\ Descriptor.probable_cause d = Some CAUSE_SENSOR).
Proof.
  split; [| split].
  - apply (proj1 (sensor_correlation sensor_fine true true)). reflexivity.
  - apply (proj1 (proj2 (sensor_correlation sensor_lost false true)));
      [reflexivity | left; reflexivity].
  - apply (proj2 (proj2 (sensor_correlation sensor_lost true true)));
      reflexivity.
Defined.

Lemma idempotent_continuation_witness :
  process_incident sample_clock store_always_ok internet_outage three_open
  = Returned 2 three_open
  /\ exists row w',
       fire sample_clock store_always_ok 3 wlan0_outage
         (initial_world empty_database)
       = Returned (repeat (Incident.id row) 3) w'
       /\ incidents (db w') = [row].
Proof.
  split.
  - apply (proj1 (idempotent_continuation sample_clock store_always_ok
                    three_open internet_outage) 2).
    reflexivity.
  - destruct (proj2 (idempotent_continuation sample_clock store_always_ok
                       (initial_world empty_database) wlan0_outage)
                eq_refl eq_refl 2%nat)
      as [row [w' [Hfire [Hrows _]]]].
    exists row, w'. split; [exact Hfire | exact Hrows].
Defined.

Lemma open_close_pairing_witness :
  exactly_paired closed_outage /\ duration_not_negative closed_outage.
Proof.
  destruct (@open_close_pairing sample_clock store_always_ok empty_database
              [Open wlan0_outage; Close (incident_key wlan0_outage)]
              closed_outage (NoDup_nil _) (fun r0 H => match H with end)
              (or_introl eq_refl))
    as [Hexact Hsign].
  split; [exact Hexact |].
  apply Hsign; [exact sample_clock_monotone | intros r0 []].
Defined.



Lemma duration_aggregates_witness :
  total_downtime_seconds
    (analyze_incident_patterns (fun _ => None) two_resolved 0 one_hour)
  = sum (spec_resolved_durations
           (get_incidents (Some 0) (Some one_hour) None two_resolved)).
Proof.
  apply (proj2 (proj2 (proj2
           (duration_aggregates (fun _ => None) two_resolved 0 one_hour)))).
  intros r Hin. vm_compute in Hin.
  destruct Hin as [<- | [<- | []]]; intros Hopen; discriminate Hopen.
Defined.

Lemma serial_firings_open_once_witness :
  nth 1 (fst (run_schedule sample_clock store_always_ok [0; 0; 0; 1; 1; 1]%nat
                [Calling wlan0_outage; Calling wlan0_outage]
                (initial_world empty_database)))
    (Failed StoreError)
  = Finished 1.
Proof.
  apply (proj2 (serial_firings_open_once sample_clock store_always_ok
                  (initial_world empty_database) wlan0_outage) 1).
  reflexivity.
Defined.

(* ================================================================== *)
(** * Further properties: the WiFi classifier *)

(** X1. [check_wifi_status]: a snapshot that is not connected gives
    [wifi_outage]/[critical] on the interface, whatever the signal is; a
    connected one gives [wifi_degradation]/[warning] when its signal is
    present, is not 0 and is below the threshold; and no incident when the
    signal is missing, is 0 or is at least the threshold. A signal of 0 is
    read as a missing one, even under a positive threshold. *)
Theorem wifi_status_classification :
  forall (wifi_data : WiFi.t) (rssi_critical : Z),
    (truthy (WiFi.is_connected wifi_data) = false ->
       classified (check_wifi_status wifi_data rssi_critical)
         "wifi_outage" "critical" [WiFi.interface wifi_data])
    /\ (truthy (WiFi.is_connected wifi_data) = true ->
        forall rssi, WiFi.rssi wifi_data = Some rssi ->
        rssi <> 0 -> rssi < rssi_critical ->
        classified (check_wifi_status wifi_data rssi_critical)
          "wifi_degradation" "warning" [WiFi.interface wifi_data])
    /\ (truthy (WiFi.is_connected wifi_data) = true ->
        (WiFi.rssi wifi_data = None
         \/ WiFi.rssi wifi_data = Some 0
         \/ exists rssi, WiFi.rssi wifi_data = Some rssi /\ rssi_critical <= rssi) ->
        check_wifi_status wifi_data rssi_critical = None).
Proof.
  intros wifi_data rssi_critical. unfold check_wifi_status.
  split; [| split].
  - intros ->. cbn. eexists. split; [reflexivity | repeat split].
  - intros -> rssi -> Hnz Hlow. cbn.
    destruct (Z.eqb_spec rssi 0) as [| _]; [contradiction |].
    apply Z.ltb_lt in Hlow. rewrite Hlow. cbn.
    eexists. split; [reflexivity | repeat split].
  - intros -> [-> | [-> | [rssi [-> Hhigh]]]]; cbn; try reflexivity.
    apply Z.ltb_ge in Hhigh. rewrite Hhigh. now rewrite andb_false_r.
Qed.

Lemma wifi_status_classification_witness :
  classified (check_wifi_status wlan0_down (-80))
    "wifi_outage" "critical" ["wlan0"]
  /\ classified (check_wifi_status (WiFi.mk 0 "wlan0" (Some true) (Some (-85))) (-80))
       "wifi_degradation" "warning" ["wlan0"]
  /\ check_wifi_status (WiFi.mk 0 "wlan0" (Some true) (Some 0)) 5 = None.
Proof.
  split; [| split].
  - apply (proj1 (wifi_status_classification wlan0_down (-80))). reflexivity.
  - apply (proj1 (proj2 (wifi_status_classification
                           (WiFi.mk 0 "wlan0" (Some true) (Some (-85))) (-80)))
             eq_refl (-85)); [reflexivity | discriminate | reflexivity].
  - apply (proj2 (proj2 (wifi_status_classification
                           (WiFi.mk 0 "wlan0" (Some true) (Some 0)) 5)));
      [reflexivity | right; left; reflexivity].
Defined.

(** X2. With the default threshold of -80, a connected snapshot is
    classified as an incident by [check_wifi_status] exactly when
    [get_signal_quality_rating] rates its signal as very weak: the
    classifier and the rating of the display agree. *)
Theorem degradation_is_very_weak :
  forall (wifi_data : WiFi.t),
    truthy (WiFi.is_connected wifi_data) = true ->
    (check_wifi_status wifi_data (-80) <> None
     <-> get_signal_quality_rating (WiFi.rssi wifi_data) = "Very Weak").
Proof.
  intros wifi_data Hconnected.
  unfold check_wifi_status, get_signal_quality_rating.
  rewrite Hconnected. cbn [negb].
  destruct (WiFi.rssi wifi_data) as [rssi |]; cbn.
  2:{ split; [intros Hne; now contradiction Hne | discriminate]. }
  destruct (Z.eqb_spec rssi 0) as [-> | Hnz]; cbn.
  { split; [intros Hne; now contradiction Hne | discriminate]. }
  destruct (Z.ltb_spec rssi (-80)) as [Hlow | Hhigh].
  - destruct (Z.leb_spec (-50) rssi); [lia |].
    destruct (Z.leb_spec (-60) rssi); [lia |].
    destruct (Z.leb_spec (-70) rssi); [lia |].
    destruct (Z.leb_spec (-80) rssi); [lia |].
    split; [reflexivity | discriminate].
  - destruct (Z.leb_spec (-50) rssi);
      [split; [intros Hne; now contradiction Hne | discriminate] |].
    destruct (Z.leb_spec (-60) rssi);
      [split; [intros Hne; now contradiction Hne | discriminate] |].
    destruct (Z.leb_spec (-70) rssi);
      [split; [intros Hne; now contradiction Hne | discriminate] |].
    destruct (Z.leb_spec (-80) rssi); [| lia].
    split; [intros Hne; now contradiction Hne | discriminate].
Qed.

Lemma degradation_is_very_weak_witness :
  check_wifi_status (WiFi.mk 0 "wlan0" (Some true) (Some (-85))) (-80) <> None
  <-> get_signal_quality_rating (Some (-85)) = "Very Weak".
Proof.
  apply (degradation_is_very_weak (WiFi.mk 0 "wlan0" (Some true) (Some (-85)))).
  reflexivity.
Defined.

(* ================================================================== *)
(** * Further properties: the dedup key *)

Section StringOrder.

Lemma leb_not_gt a b : String.leb a b = true <-> String.compare a b <> Gt.
Proof.
  unfold String.leb. destruct (String.compare a b); split; congruence.
Qed.

Lemma compare_not_gt_trans a : forall b c,
  String.compare a b <> Gt -> String.compare b c <> Gt ->
  String.compare a c <> Gt.
Proof.
  induction a as [| ca a IH]; intros [| cb b] [| cc c]; cbn;
    try congruence.
  unfold Ascii.compare.
  destruct (N.compare_spec (N_of_ascii ca) (N_of_ascii cb)) as [Hab | Hab | Hab];
    destruct (N.compare_spec (N_of_ascii cb) (N_of_ascii cc)) as [Hbc | Hbc | Hbc];
    destruct (N.compare_spec (N_of_ascii ca) (N_of_ascii cc)) as [Hac | Hac | Hac];
    try congruence; try lia.
  apply IH.
Qed.

Lemma leb_trans a b c :
  String.leb a b = true -> String.leb b c = true -> String.leb a c = true.
Proof. rewrite !leb_not_gt. apply compare_not_gt_trans. Qed.

Lemma leb_false_flip a b : String.leb a b = false -> String.leb b a = true.
Proof.
  intros H. destruct (String.leb_total a b) as [H' | H']; congruence.
Qed.

Lemma insert_sorted_swap a b : forall l,
  insert_sorted a (insert_sorted b l) = insert_sorted b (insert_sorted a l).
Proof.
  assert (Hpair : forall rest,
             (if String.leb a b then a :: b :: rest else b :: a :: rest)
             = (if String.leb b a then b :: a :: rest else a :: b :: rest)).
  { intros rest.
    destruct (String.leb a b) eqn:Hab, (String.leb b a) eqn:Hba;
      try reflexivity.
    - now rewrite (String.leb_antisym _ _ Hab Hba).
    - apply leb_false_flip in Hab. congruence. }
  induction l as [| x rest IH]; cbn.
  - destruct (String.leb a b) eqn:Hab, (String.leb b a) eqn:Hba;
      try reflexivity.
    + now rewrite (String.leb_antisym _ _ Hab Hba).
    + apply leb_false_flip in Hab. congruence.
  - destruct (String.leb a x) eqn:Hax, (String.leb b x) eqn:Hbx; cbn;
      rewrite ?Hax, ?Hbx.
    + specialize (Hpair (x :: rest)).
      destruct (String.leb a b), (String.leb b a); cbn;
        rewrite ?Hax, ?Hbx; exact Hpair.
    + destruct (String.leb b a) eqn:Hba; [| reflexivity].
      rewrite (leb_trans _ _ _ Hba Hax) in Hbx. discriminate.
    + destruct (String.leb a b) eqn:Hab; [| reflexivity].
      rewrite (leb_trans _ _ _ Hab Hbx) in Hax. discriminate.
    + now rewrite IH.
Qed.



Lemma sorted_of_perm l l' : Permutation l l' -> sorted l = sorted l'.
Proof.
  induction 1 as [| x l l' _ IH | x y l | l l' l'' _ IH _ IH']; cbn.
  - reflexivity.
  - now rewrite IH.
  - apply insert_sorted_swap.
  - congruence.
Qed.

End StringOrder.

Section JsonText.








End JsonText.

(** X3. The dedup key does not depend on the order of the targets: two
    descriptors of the same type whose target lists are permutations of one
    another have the same key, so while the incident of the first is open,
    firing the second returns its id and changes nothing. *)
Theorem dedup_key_ignores_order :
  forall (clock : nat -> datetime) (store_ok : nat -> bool) (w : World)
         (d d' : Descriptor.t) (i : Z),
    Descriptor.incident_type d = Descriptor.incident_type d' ->
    Permutation (Descriptor.affected_targets d) (Descriptor.affected_targets d') ->
    incident_key d = incident_key d'
    /\ (dict_get (incident_key d) (active_incidents w) = Some i ->
        process_incident clock store_ok d' w = Returned i w).
Proof.
  intros clock store_ok w d d' i Htype Hperm.
  assert (Hkey : incident_key d = incident_key d').
  { unfold incident_key. now rewrite Htype, (sorted_of_perm Hperm). }
  split; [exact Hkey |].
  intros Hopen. apply process_incident_continues. now rewrite <- Hkey.
Qed.

Lemma dedup_key_ignores_order_witness :
  process_incident sample_clock store_always_ok
    (Descriptor.mk "internet_outage" "warning" "again" ["1.1.1.1"; "8.8.8.8"] None)
    three_open
  = Returned 2 three_open.
Proof.
  apply (proj2 (@dedup_key_ignores_order sample_clock store_always_ok three_open
                  internet_outage
                  (Descriptor.mk "internet_outage" "warning" "again"
                     ["1.1.1.1"; "8.8.8.8"] None)
                  2 eq_refl (perm_swap "1.1.1.1" "8.8.8.8" []))).
  reflexivity.
Defined.



(** X5. The key that [_monitor_sensor] writes by hand when a sensor answers
    again is the key under which [process_incident] registered the outage
    that [check_sensor_status] reported for that sensor, whatever the flags
    and the address were. *)
Theorem sensor_recovery_key :
  forall (name : string) (ip : option string) (available : option bool)
         (wifi_ok gateway_ok : bool),
    truthy available = false ->
    exists d,
      check_sensor_status (Sensor.mk (Some name) ip available) wifi_ok gateway_ok
      = Some d
      /\ incident_key d = sensor_key name.
Proof.
  intros name ip available wifi_ok gateway_ok Hdown.
  unfold check_sensor_status. cbn [Sensor.is_available]. rewrite Hdown.
  destruct (negb wifi_ok || negb gateway_ok);
    eexists; (split; [reflexivity | reflexivity]).
Qed.

Lemma sensor_recovery_key_witness :
  exists d,
    check_sensor_status sensor_lost false true = Some d
    /\ incident_key d = sensor_key "thermo".
Proof.
  apply (sensor_recovery_key "thermo" (Some "192.168.1.50") (Some false) false true).
  reflexivity.
Defined.

(* ================================================================== *)
(** * Further properties: opening, closing and the retention *)

Section FreshRows.

Lemma find_incident_app_absent i rows rows' :
  find_incident i rows = None ->
  find_incident i (rows ++ rows') = find_incident i rows'.
Proof.
  unfold find_incident.
  induction rows as [| r rest IH]; cbn; [reflexivity |].
  destruct (Incident.id r =? i); [discriminate | exact IH].
Qed.

Lemma update_first_app_absent i kwargs rows rows' :
  find_incident i rows = None ->
  update_first i kwargs (rows ++ rows') = (rows ++ update_first i kwargs rows')%list.
Proof.
  unfold find_incident.
  induction rows as [| r rest IH]; cbn; [reflexivity |].
  destruct (Incident.id r =? i); [discriminate |].
  intros H. now rewrite IH.
Qed.

Lemma find_incident_none i rows :
  (forall r, In r rows -> Incident.id r <> i) -> find_incident i rows = None.
Proof.
  intros Hnone. unfold find_incident.
  induction rows as [| r rest IH]; cbn; [reflexivity |].
  destruct (Z.eqb_spec (Incident.id r) i) as [Hid | _].
  - exfalso. apply (Hnone r); [now left | exact Hid].
  - apply IH. intros x Hx. apply Hnone. now right.
Qed.

Lemma find_next_rowid rows (keep : Incident.t -> bool) :
  find_incident (next_rowid rows) (filter keep rows) = None.
Proof.
  apply find_incident_none. intros r Hr Hid.
  apply filter_In in Hr. destruct Hr as [Hr _].
  apply next_rowid_fresh in Hr. lia.
Qed.

Lemma find_next_rowid_all rows : find_incident (next_rowid rows) rows = None.
Proof.
  apply find_incident_none. intros r Hr Hid.
  apply next_rowid_fresh in Hr. lia.
Qed.

Lemma dict_del_set_absent {V : Type} k (v : V) (d : dict V) :
  dict_get k d = None -> dict_del k (dict_set k v d) = d.
Proof.
  intros Habsent. rewrite (dict_set_absent _ _ _ Habsent).
  unfold dict_del. rewrite filter_app. cbn. rewrite String.eqb_refl. cbn.
  rewrite app_nil_r. now apply dict_del_absent.
Qed.

End FreshRows.

(** X6. Opening an incident and closing it: when the key is not open and
    the two commits succeed, [process_incident] followed by
    [resolve_incident] on the key of the descriptor leaves the index as it
    was and adds one row, which is resolved, ends at the second reading of
    the clock and lasts the whole seconds between the two readings
    (truncated towards zero). *)
Theorem open_then_close :
  forall (clock : nat -> datetime) (store_ok : nat -> bool)
         (w : World) (incident_data : Descriptor.t),
    dict_get (incident_key incident_data) (active_incidents w) = None ->
    store_ok (commits w) = true ->
    store_ok (S (commits w)) = true ->
    exists i w1 w2 row,
      process_incident clock store_ok incident_data w = Returned i w1
      /\ resolve_incident clock store_ok (incident_key incident_data) w1
         = Returned tt w2
      /\ active_incidents w2 = active_incidents w
      /\ incidents (db w2) = (incidents (db w) ++ [row])%list
      /\ Incident.id row = i
      /\ Incident.is_resolved row = true
      /\ Incident.start_time row = clock (ticks w)
      /\ Incident.end_time row = Some (clock (S (ticks w)))
      /\ Incident.duration_seconds row
         = Some (Z.quot (clock (S (ticks w)) - clock (ticks w)) 1000000).
Proof.
  intros clock store_ok w incident_data Habsent Hok Hok2.
  set (rows := incidents (db w)).
  set (row := opened_row clock incident_data w).
  pose proof (process_incident_opens clock store_ok _ _ Habsent Hok) as Hopen.
  match type of Hopen with _ = Returned _ ?x => set (w1 := x) in * end.
  assert (Hget : dict_get (incident_key incident_data) (active_incidents w1)
                 = Some (next_rowid rows))
    by (cbn; apply dict_get_set_same).
  assert (Hfind : find_incident (next_rowid rows) (incidents (db w1)) = Some row).
  { unfold w1. cbn [db incidents]. fold rows.
    rewrite find_incident_app_absent by apply find_next_rowid_all.
    unfold find_incident. cbn. now rewrite Z.eqb_refl. }
  assert (Hactive : find_incident (next_rowid rows) (get_active_incidents (db w1))
                    = Some row).
  { unfold get_active_incidents, w1. cbn [db incidents]. fold rows.
    rewrite filter_app.
    rewrite find_incident_app_absent by apply find_next_rowid.
    unfold find_incident. cbn. now rewrite Z.eqb_refl. }
  pose proof (resolve_incident_open clock store_ok _ _ Hget) as Hclose.
  rewrite Hfind in Hclose. cbn [commits w1] in Hclose. rewrite Hok2 in Hclose.
  unfold resolve_kwargs in Hclose. rewrite Hactive in Hclose.
  do 4 eexists. split; [exact Hopen |]. split; [exact Hclose |].
  unfold w1. cbn [active_incidents db incidents write_incident ticks].
  rewrite dict_del_set_absent by exact Habsent.
  fold rows. rewrite update_first_app_absent by apply find_next_rowid_all.
  unfold row, opened_row. cbn [update_first Incident.id]. rewrite Z.eqb_refl.
  cbn. repeat split.
Qed.

Lemma open_then_close_witness :
  exists i w1 w2 row,
    process_incident sample_clock store_always_ok wlan0_outage
      (initial_world empty_database) = Returned i w1
    /\ resolve_incident sample_clock store_always_ok (incident_key wlan0_outage) w1
       = Returned tt w2
    /\ active_incidents w2 = []
    /\ incidents (db w2) = [row]
    /\ Incident.duration_seconds row = Some 300.
Proof.
  destruct (@open_then_close sample_clock store_always_ok
              (initial_world empty_database) wlan0_outage
              eq_refl eq_refl eq_refl)
    as [i [w1 [w2 [row [H1 [H2 [H3 [H4 [_ [_ [_ [_ H5]]]]]]]]]]]].
  exists i, w1, w2, row. repeat split; assumption.
Defined.

Lemma resolve_incident_missing_row
    (clock : nat -> datetime) (store_ok : nat -> bool)
    (w : World) (key : string) (i : Z) :
  dict_get key (active_incidents w) = Some i ->
  find_incident i (incidents (db w)) = None ->
  resolve_incident clock store_ok key w
  = Returned tt (mkWorld (dict_del key (active_incidents w)) (db w)
                   (S (ticks w)) (commits w)).
Proof.
  intros Hget Hmissing.
  rewrite (resolve_incident_open clock store_ok _ _ Hget).
  now rewrite Hmissing.
Qed.

(** X7. Closing an incident whose row is missing from the store: the key
    leaves the index and nothing else happens. No commit is made, so the
    call returns even when the store rejects every commit, and the tables
    are as they were. *)
Theorem close_without_row :
  forall (clock : nat -> datetime) (store_ok : nat -> bool)
         (w : World) (key : string) (i : Z),
    dict_get key (active_incidents w) = Some i ->
    find_incident i (incidents (db w)) = None ->
    resolve_incident clock store_ok key w
    = Returned tt (mkWorld (dict_del key (active_incidents w)) (db w)
                     (S (ticks w)) (commits w)).
Proof.
  intros clock store_ok w key i. apply resolve_incident_missing_row.
Qed.

Lemma close_without_row_witness :
  resolve_incident sample_clock (fun _ => false) "gone"
    (mkWorld [("gone", 7)] empty_database 0 0)
  = Returned tt (mkWorld [] empty_database 1 0).
Proof.
  apply (@close_without_row sample_clock (fun _ => false)
           (mkWorld [("gone", 7)] empty_database 0 0) "gone" 7);
    reflexivity.
Defined.

(** X8. The retention and an open incident. When every row with the id of
    an open incident started before the cutoff, [cleanup_old_data] deletes
    it although it is unresolved, and the key stays in the index. The
    close that follows drops the key and writes nothing: the incident
    leaves no row, no end time and no duration. *)
Theorem cleanup_then_close :
  forall (clock : nat -> datetime) (store_ok : nat -> bool)
         (w : World) (key : string) (i days : Z),
    dict_get key (active_incidents w) = Some i ->
    (forall r, In r (incidents (db w)) -> Incident.id r = i ->
               Incident.start_time r < clock (ticks w) - timedelta_days days) ->
    store_ok (commits w) = true ->
    exists w1 w2,
      cleanup_old_data clock store_ok days w = Returned tt w1
      /\ active_incidents w1 = active_incidents w
      /\ find_incident i (incidents (db w1)) = None
      /\ resolve_incident clock store_ok key w1 = Returned tt w2
      /\ dict_get key (active_incidents w2) = None
      /\ db w2 = db w1.
Proof.
  intros clock store_ok w key i days Hget Hold Hok.
  unfold cleanup_old_data, bind, utcnow, commit.
  cbn [commits active_incidents db ticks]. rewrite Hok.
  eexists. eexists. split; [reflexivity |].
  cbn [active_incidents db]. split; [reflexivity |].
  assert (Hgone : find_incident i
            (incidents (delete_older (clock (ticks w) - timedelta_days days) (db w)))
            = None).
  { apply find_incident_none. intros r Hr Hid.
    unfold delete_older in Hr. cbn [incidents] in Hr.
    apply filter_In in Hr. destruct Hr as [Hr Hkeep].
    specialize (Hold r Hr Hid).
    apply negb_true_iff, Z.ltb_ge in Hkeep. lia. }
  split; [exact Hgone |].
  rewrite resolve_incident_missing_row with (i := i); [| exact Hget | exact Hgone].
  split; [reflexivity |].
  cbn [active_incidents db]. split; [apply dict_get_del_same | reflexivity].
Qed.

Lemma cleanup_then_close_witness :
  exists w1 w2,
    cleanup_old_data slow_clock store_always_ok 7 old_open = Returned tt w1
    /\ incidents (db w1) = []
    /\ resolve_incident slow_clock store_always_ok (incident_key wlan0_outage) w1
       = Returned tt w2
    /\ active_incidents w2 = []
    /\ incidents (db w2) = [].
Proof.
  destruct (@cleanup_then_close slow_clock store_always_ok old_open
              (incident_key wlan0_outage) 1 7 eq_refl)
    as [w1 [w2 [H1 [_ [_ [H2 [_ H3]]]]]]].
  - intros r Hr Hid. vm_compute in Hr. destruct Hr as [<- | []]. reflexivity.
  - reflexivity.
  - exists w1, w2.
    assert (Hw1 : w1 = mkWorld [(incident_key wlan0_outage, 1)] empty_database 2 2).
    { vm_compute in H1. injection H1 as <-. reflexivity. }
    subst w1.
    split; [exact H1 |]. split; [reflexivity |]. split; [exact H2 |].
    vm_compute in H2. injection H2 as <-. split; reflexivity.
Defined.

(* ================================================================== *)
(** * Further properties: shutdown and the index *)

Section Shutdown.

Variable clock : nat -> datetime.
Variable store_ok : nat -> bool.

(** A loop of detector calls made from the application is the loop made
    in the detector. *)
Lemma for_each_in_app (body : string -> M World unit) (keys : list string) :
  forall p,
    for_each keys (fun key => in_app (in_world (body key))) p
    = match for_each keys body (world (app p)) with
      | Returned x w =>
          Returned x
            (mkProcess
               (mkApp w (current_state_wifi (app p))
                  (current_state_last_update (app p))
                  (stats_wifi_checks (app p)) (stats_incidents (app p)))
               (running p))
      | Raised e w =>
          Raised e
            (mkProcess
               (mkApp w (current_state_wifi (app p))
                  (current_state_last_update (app p))
                  (stats_wifi_checks (app p)) (stats_incidents (app p)))
               (running p))
      end.
Proof.
  induction keys as [| key rest IH]; intros p.
  - destruct p as [[w a b c d] r]. reflexivity.
  - cbn [for_each]. unfold bind. unfold in_app at 1, in_world at 1.
    destruct (body key (world (app p))) as [[] w1 | e w1]; [| reflexivity].
    rewrite IH. reflexivity.
Qed.

Lemma filter_nothing {A : Type} (keep : A -> bool) (l : list A) :
  (forall x, In x l -> keep x = false) -> filter keep l = [].
Proof.
  induction l as [| x rest IH]; cbn; [reflexivity |].
  intros Hall. rewrite (Hall x (or_introl eq_refl)).
  apply IH. intros y Hy. apply Hall. now right.
Qed.

End Shutdown.

(** X9. Shutdown closes everything. From a state in which the index and
    the store agree, and when the commits succeed, [stop] returns with the
    [running] flag off and an empty index, and every incident that was open
    is resolved with its end time set. *)
Theorem stop_closes_everything :
  forall (clock : nat -> datetime) (store_ok : nat -> bool) (p : Process),
    consistent (world (app p)) ->
    store_ok_from store_ok (commits (world (app p))) ->
    exists p',
      stop clock store_ok p = Returned tt p'
      /\ running p' = false
      /\ active_incidents (world (app p')) = []
      /\ (forall k i,
            In (k, i) (active_incidents (world (app p))) ->
            exists r',
              find_incident i (incidents (db (world (app p')))) = Some r'
              /\ Incident.is_resolved r' = true
              /\ Incident.end_time r' <> None).
Proof.
  intros clock store_ok p [Hkeys Hids Hrows Hbacked] Hok.
  unfold stop. rewrite for_each_in_app. cbn [app world running].
  set (w := world (app p)) in *.
  destruct (@resolve_loop clock store_ok (dict_keys (active_incidents w)) w Hok)
    as [w' [Hloop [Hindex [Hclosed _]]]].
  rewrite Hloop. eexists. split; [reflexivity |].
  cbn [app world running]. split; [reflexivity |]. split.
  - rewrite Hindex, fold_dict_del. apply filter_nothing.
    intros [k i] Hin. cbn [fst]. apply negb_false_iff.
    apply existsb_exists. exists k. split; [| apply String.eqb_refl].
    unfold dict_keys. change k with (fst (k, i)). now apply in_map.
  - intros k i Hin.
    destruct (Hbacked k i Hin) as [r [Hr [Hid _]]]. subst i.
    apply (Hclosed k (Incident.id r) r).
    + unfold dict_keys. change k with (fst (k, Incident.id r)). now apply in_map.
    + now apply in_dict_get.
    + now apply find_incident_unique.
Qed.

Lemma stop_closes_everything_witness :
  exists p',
    stop sample_clock store_always_ok running_three_open = Returned tt p'
    /\ running p' = false
    /\ active_incidents (world (app p')) = [].
Proof.
  destruct (@stop_closes_everything sample_clock store_always_ok
              running_three_open (proj1 three_open_invariant)
              (fun m _ => eq_refl))
    as [p' [Hstop [Hflag [Hindex _]]]].
  exists p'. split; [exact Hstop | split; [exact Hflag | exact Hindex]].
Defined.

(** X10. One open incident per key. Take a store whose rows have distinct
    ids and are paired, a detector started on it and a clock that never
    steps back. After any sequence of [process_incident],
    [resolve_incident] and [check_and_resolve_incidents] calls, whatever
    commits fail, the index and the store agree: no key and no id is
    indexed twice, no two rows share an id, and every indexed id is the id
    of a row that is not resolved. *)
Theorem index_agrees_with_store :
  forall (clock : nat -> datetime) (store_ok : nat -> bool)
         (d : Database) (calls : list Call),
    monotone clock ->
    NoDup (map Incident.id (incidents d)) ->
    (forall r, In r (incidents d) -> paired r) ->
    consistent (run_calls clock store_ok calls (initial_world d)).
Proof.
  intros clock store_ok d calls Hmono Hrows Hpaired.
  exact (proj1 (run_calls_invariant store_ok Hmono calls
                  (initial_world_invariant clock d Hrows Hpaired))).
Qed.

Lemma index_agrees_with_store_witness : consistent three_open.
Proof.
  apply (@index_agrees_with_store sample_clock store_always_ok empty_database
           [Open wlan0_outage; Open internet_outage; Open thermo_outage]).
  - exact sample_clock_monotone.
  - constructor.
  - intros r [].
Defined.

(* ================================================================== *)
(** * Further properties: queries and analytics *)

Section Queries.

Lemma insert_by_start_sorted r l :
  StronglySorted by_start l -> StronglySorted by_start (insert_by_start r l).
Proof.
  induction 1 as [| x rest Hsorted IH Hall]; cbn.
  - constructor; constructor.
  - destruct (Z.leb_spec (Incident.start_time x) (Incident.start_time r)) as [Hle | Hgt].
    + constructor; [exact IH |].
      apply Forall_forall. intros y Hy.
      apply insert_by_start_in in Hy. destruct Hy as [-> | Hy]; [exact Hle |].
      now apply (proj1 (Forall_forall _ _) Hall).
    + constructor; [now constructor |].
      constructor; [unfold by_start; lia |].
      apply Forall_forall. intros y Hy.
      pose proof (proj1 (Forall_forall _ _) Hall y Hy) as Hxy.
      unfold by_start in *. lia.
Qed.

Lemma insert_by_start_perm r l : Permutation (insert_by_start r l) (r :: l).
Proof.
  induction l as [| x rest IH]; cbn; [reflexivity |].
  destruct (Incident.start_time x <=? Incident.start_time r); [| reflexivity].
  rewrite IH. apply perm_swap.
Qed.

Lemma order_by_start_time_sorted l : StronglySorted by_start (order_by_start_time l).
Proof.
  unfold order_by_start_time.
  enough (H : forall acc, StronglySorted by_start acc ->
                StronglySorted by_start
                  (fold_left (fun a r => insert_by_start r a) l acc))
    by (apply H; constructor).
  induction l as [| r rest IH]; intros acc Hacc; cbn; [exact Hacc |].
  apply IH. now apply insert_by_start_sorted.
Qed.

Lemma order_by_start_time_perm l : Permutation (order_by_start_time l) l.
Proof.
  unfold order_by_start_time.
  enough (H : forall acc,
                Permutation (fold_left (fun a r => insert_by_start r a) l acc)
                            (l ++ acc))
    by (rewrite H; now rewrite app_nil_r).
  induction l as [| r rest IH]; intros acc; cbn; [reflexivity |].
  rewrite IH, insert_by_start_perm. symmetry. apply Permutation_middle.
Qed.

(** X11. [get_incidents] returns the rows of the table whose start is
    within the bounds that are given, both inclusive, and whose type is the
    one asked for when one is given and is not the empty string (an empty
    string is tested as false and filters nothing): these rows and no
    other, ordered by start time, and none of them twice when the table has
    no row twice. *)
Theorem get_incidents_ordered :
  forall (start_time end_time : option datetime) (incident_type : option string)
         (d : Database),
    let found := get_incidents start_time end_time incident_type d in
    StronglySorted by_start found
    /\ (forall r,
          In r found <->
          In r (incidents d)
          /\ (forall s, start_time = Some s -> s <= Incident.start_time r)
          /\ (forall e, end_time = Some e -> Incident.start_time r <= e)
          /\ (forall t, incident_type = Some t -> t <> EmptyString ->
                        Incident.incident_type r = t))
    /\ (NoDup (incidents d) -> NoDup found).
Proof.
  intros start_time end_time incident_type d found. subst found.
  unfold get_incidents. split; [apply order_by_start_time_sorted | split].
  - intros r. rewrite order_by_start_time_in, filter_In.
    rewrite !andb_true_iff.
    destruct start_time as [s |], end_time as [e |],
             incident_type as [[| c t] |];
      cbn [passes given_text]; rewrite ?Z.leb_le, ?String.eqb_eq;
      (split; [intros [Hin Hcond]; split; [exact Hin |];
               repeat split; intros x; try discriminate;
               try (intros [= <-]); try tauto
              | intros [Hin [Hs [He Ht]]]; split; [exact Hin |];
                repeat split; auto;
                try (apply Ht; [reflexivity | discriminate])]).
  - intros Hnd.
    apply (Permutation_NoDup (Permutation_sym (order_by_start_time_perm _))).
    now apply NoDup_filter.
Qed.

Lemma get_incidents_ordered_witness :
  NoDup (get_incidents (Some 0) (Some one_hour) None three_in_an_hour).
Proof.
  apply (proj2 (proj2 (get_incidents_ordered (Some 0) (Some one_hour) None
                         three_in_an_hour))).
  repeat constructor; cbn; intuition discriminate.
Defined.

(** An empty type is no filter: the three rows come back. *)
Example empty_type_filters_nothing :
  get_incidents None None (Some EmptyString) three_in_an_hour
  = incidents three_in_an_hour
  /\ get_incidents None None (Some "wifi_outage") three_in_an_hour
     = firstn 1 (incidents three_in_an_hour).
Proof. split; reflexivity. Qed.

End Queries.

Section Counters.

Lemma how_many_cons {A : Type} (test : A -> bool) x l :
  how_many test (x :: l) = (if test x then 1 else 0) + how_many test l.
Proof.
  unfold how_many, len. cbn. destruct (test x); cbn [length]; lia.
Qed.

Lemma how_many_nonneg {A : Type} (test : A -> bool) l : 0 <= how_many test l.
Proof. unfold how_many, len. lia. Qed.

Lemma how_many_perm {A : Type} (test : A -> bool) l l' :
  Permutation l l' -> how_many test l = how_many test l'.
Proof.
  induction 1 as [| x l l' _ IH | x y l | l l' l'' _ IH _ IH'];
    rewrite ?how_many_cons; lia.
Qed.

Lemma how_many_positive {A : Type} (test : A -> bool) l :
  how_many test l <> 0 -> exists x, In x l /\ test x = true.
Proof.
  induction l as [| x rest IH]; [intros H; now contradiction H |].
  rewrite how_many_cons. destruct (test x) eqn:Hx.
  - intros _. exists x. split; [now left | exact Hx].
  - intros H. destruct (IH H) as [y [Hy Hty]]. exists y. split; [now right | exact Hty].
Qed.

(** A counter filled by [d[key(x)] += 1] over a list has, for every key,
    what it had plus the number of elements with that key. *)
Lemma counter_fold {A : Type} (key : A -> string) (k : string) (l : list A) :
  forall c,
    dict_get k (fold_left (fun c x => dict_incr (key x) c) l c)
    = match dict_get k c with
      | Some n => Some (n + how_many (fun x => String.eqb (key x) k) l)
      | None => counted (how_many (fun x => String.eqb (key x) k) l)
      end.
Proof.
  induction l as [| x rest IH]; intros c; cbn [fold_left].
  - unfold how_many, len, counted. cbn.
    destruct (dict_get k c); [f_equal; lia | reflexivity].
  - rewrite IH, how_many_cons. unfold dict_incr.
    pose proof (how_many_nonneg (fun x => String.eqb (key x) k) rest) as Hpos.
    destruct (String.eqb_spec (key x) k) as [-> | Hne].
    + rewrite dict_get_set_same.
      destruct (dict_get k c) as [n |]; cbn [get_default].
      * f_equal. lia.
      * unfold counted.
        destruct (Z.eqb_spec (1 + how_many (fun x => String.eqb (key x) k) rest) 0);
          [lia | f_equal; lia].
    + rewrite (dict_get_set_other _ _ Hne).
      destruct (dict_get k c); [f_equal; lia | f_equal; lia].
Qed.

Lemma dict_set_keys_unique {V : Type} k (v : V) (d : dict V) :
  NoDup (dict_keys d) -> NoDup (dict_keys (dict_set k v d)).
Proof.
  destruct (dict_get k d) as [v0 |] eqn:Hget.
  - intros Hnd.
    enough (Hsame : dict_keys (dict_set k v d) = dict_keys d) by now rewrite Hsame.
    clear Hnd. revert Hget. unfold dict_keys.
    induction d as [| [k' v'] rest IH]; cbn; [discriminate |].
    destruct (String.eqb_spec k k') as [-> | Hne]; cbn; [reflexivity |].
    intros H. now rewrite IH.
  - intros Hnd. rewrite (dict_set_absent _ _ _ Hget).
    unfold dict_keys. rewrite map_app. apply NoDup_snoc; [exact Hnd |].
    now apply dict_get_absent.
Qed.

Lemma counter_keys_unique {A : Type} (key : A -> string) (l : list A) :
  forall c, NoDup (dict_keys c) ->
            NoDup (dict_keys (fold_left (fun c x => dict_incr (key x) c) l c)).
Proof.
  induction l as [| x rest IH]; intros c Hnd; cbn [fold_left]; [exact Hnd |].
  apply IH. unfold dict_incr. now apply dict_set_keys_unique.
Qed.

End Counters.

(** X12. The counts of [analyze_incident_patterns]. [total_incidents] is
    the number of rows whose start is in the range; for every type,
    [by_type] holds the number of these rows with that type, and for every
    severity [by_severity] the number with that severity; a type or a
    severity that no row of the range has is not a key of the dict. *)
Theorem incident_counts :
  forall (json_loads : string -> option (list string))
         (d : Database) (start_time end_time : datetime),
    let rows := in_range start_time end_time d in
    let result := analyze_incident_patterns json_loads d start_time end_time in
    total_incidents result = len rows
    /\ (forall t, dict_get t (by_type result)
                  = counted (how_many
                               (fun r => String.eqb (Incident.incident_type r) t)
                               rows))
    /\ (forall v, dict_get v (by_severity result)
                  = counted (how_many
                               (fun r => String.eqb (Incident.severity r) v)
                               rows)).
Proof.
  intros json_loads d s e rows result. subst rows result.
  unfold analyze_incident_patterns. rewrite get_incidents_in_range.
  pose proof (order_by_start_time_perm (in_range s e d)) as Hperm.
  pose proof (order_by_start_time_length (in_range s e d)) as Hlen.
  destruct (order_by_start_time (in_range s e d)) as [| r0 found] eqn:Hfound.
  - destruct (in_range s e d); [| discriminate Hlen].
    cbn. repeat split.
  - cbn [total_incidents by_type by_severity].
    split; [unfold len; now rewrite Hlen |].
    split; intros x; rewrite counter_fold; cbn [dict_get];
      now rewrite (how_many_perm _ Hperm).
Qed.

Example incident_counts_sample :
  let result := analyze_incident_patterns (fun _ => None) two_resolved 0 one_hour in
  total_incidents result = 2
  /\ by_type result = [("wifi_outage", 2)]
  /\ by_severity result = [("critical", 2)].
Proof. repeat split. Qed.

Section MostAffected.

Variable json_loads : string -> option (list string).

Lemma count_targets_flat (found : list Incident.t) : forall c,
  fold_left (count_targets json_loads) found c
  = fold_left (fun c target => dict_incr target c) (all_targets json_loads found) c.
Proof.
  induction found as [| r rest IH]; intros c; cbn [fold_left]; [reflexivity |].
  unfold all_targets. cbn [flat_map]. rewrite fold_left_app.
  rewrite IH. unfold all_targets, count_targets.
  now destruct (json_loads (Incident.affected_targets r)).
Qed.

Lemma max_by_count_greatest (l : list (string * Z)) : forall best,
  exists n,
    In (max_by_count best l, n) (best :: l)
    /\ forall x, In x (best :: l) -> snd x <= n.
Proof.
  induction l as [| x rest IH]; intros best; cbn [max_by_count].
  - exists (snd best). split; [left; now destruct best |].
    intros y [<- | []]. lia.
  - destruct (IH (if snd best <? snd x then x else best)) as [n [Hin Hmax]].
    exists n. split.
    + destruct Hin as [Hin | Hin]; [| right; now right].
      rewrite <- Hin. destruct (snd best <? snd x); [right |]; now left.
    + pose proof (Hmax _ (or_introl eq_refl)) as Hbest.
      intros y [<- | [<- | Hy]].
      * destruct (Z.ltb_spec (snd best) (snd x)); lia.
      * destruct (Z.ltb_spec (snd best) (snd x)); lia.
      * apply Hmax. now right.
Qed.

End MostAffected.

(** X13. The most affected target. Among the targets of the incidents of
    the range, as [json.loads] gives them, [most_affected_target] is one
    that occurs at least as often as any other; there is none exactly when
    no target was read at all. *)
Theorem most_affected_is_most_frequent :
  forall (json_loads : string -> option (list string))
         (d : Database) (start_time end_time : datetime),
    let targets :=
      all_targets json_loads
        (get_incidents (Some start_time) (Some end_time) None d) in
    let occurrences t := how_many (fun x => String.eqb x t) targets in
    match most_affected_target
            (analyze_incident_patterns json_loads d start_time end_time) with
    | Some t => In t targets /\ forall t', occurrences t' <= occurrences t
    | None => targets = []
    end.
Proof.
  intros json_loads d s e targets occurrences.
  unfold analyze_incident_patterns. fold (all_targets json_loads) in targets.
  destruct (get_incidents (Some s) (Some e) None d) as [| r0 found] eqn:Hfound.
  { reflexivity. }
  cbn [most_affected_target]. rewrite count_targets_flat. fold targets.
  set (counts := fold_left (fun c target => dict_incr target c) targets []).
  assert (Hget : forall t, dict_get t counts = counted (occurrences t)).
  { intros t. unfold counts. now rewrite counter_fold. }
  assert (Hunique : NoDup (dict_keys counts)).
  { unfold counts. apply counter_keys_unique. constructor. }
  assert (Hpos : forall t, 0 <= occurrences t)
    by (intros t; apply how_many_nonneg).
  destruct counts as [| x rest] eqn:Hcounts; cbn [most_affected].
  - destruct targets as [| t0 ts] eqn:Htargets; [reflexivity |].
    exfalso. specialize (Hget t0). cbn [dict_get] in Hget.
    unfold counted, occurrences in Hget.
    rewrite how_many_cons, String.eqb_refl in Hget.
    pose proof (how_many_nonneg (fun x => String.eqb x t0) ts).
    destruct (Z.eqb_spec (1 + how_many (fun x => String.eqb x t0) ts) 0);
      [lia | discriminate].
  - destruct (max_by_count_greatest rest x) as [n [Hin Hmax]].
    set (t := max_by_count x rest) in *.
    pose proof (in_dict_get _ _ _ Hunique Hin) as Ht.
    rewrite Hget in Ht. unfold counted in Ht.
    destruct (Z.eqb_spec (occurrences t) 0) as [| Hnz]; [discriminate |].
    injection Ht as Ht.
    split.
    + destruct (how_many_positive _ _ Hnz) as [y [Hy Heq]].
      apply String.eqb_eq in Heq. now subst y.
    + intros t'. destruct (Z.eq_dec (occurrences t') 0) as [Hz | Hnz'].
      * rewrite Hz. apply Hpos.
      * pose proof (Hget t') as Ht'. unfold counted in Ht'.
        destruct (Z.eqb_spec (occurrences t') 0); [contradiction |].
        apply dict_get_in in Ht'. specialize (Hmax _ Ht'). cbn in Hmax. lia.
Qed.

Section Hours.

Lemma hours_get_incr_same h hours :
  hours_get h (hour_incr h hours)
  = Some (get_default (hours_get h hours) 0 + 1).
Proof.
  induction hours as [| [h' n] rest IH]; cbn.
  - now rewrite Z.eqb_refl.
  - destruct (Z.eqb_spec h h') as [-> | Hne]; cbn.
    + now rewrite Z.eqb_refl.
    + destruct (Z.eqb_spec h h'); [contradiction | exact IH].
Qed.

Lemma hours_get_incr_other h h' hours :
  h <> h' -> hours_get h' (hour_incr h hours) = hours_get h' hours.
Proof.
  intros Hne. induction hours as [| [h0 n] rest IH]; cbn.
  - destruct (Z.eqb_spec h' h); [congruence | reflexivity].
  - destruct (Z.eqb_spec h h0) as [-> | Hh]; cbn.
    + destruct (Z.eqb_spec h' h0); [congruence | reflexivity].
    + now rewrite IH.
Qed.

Lemma hours_fold {A : Type} (key : A -> Z) (h : Z) (l : list A) :
  forall c,
    hours_get h (fold_left (fun c x => hour_incr (key x) c) l c)
    = match hours_get h c with
      | Some n => Some (n + how_many (fun x => key x =? h) l)
      | None => counted (how_many (fun x => key x =? h) l)
      end.
Proof.
  induction l as [| x rest IH]; intros c; cbn [fold_left].
  - unfold how_many, len, counted. cbn.
    destruct (hours_get h c); [f_equal; lia | reflexivity].
  - rewrite IH, how_many_cons.
    pose proof (how_many_nonneg (fun x => key x =? h) rest) as Hpos.
    destruct (Z.eqb_spec (key x) h) as [Heq | Hne].
    + rewrite Heq, hours_get_incr_same.
      destruct (hours_get h c) as [n |]; cbn [get_default].
      * f_equal. lia.
      * unfold counted.
        destruct (Z.eqb_spec (1 + how_many (fun y => key y =? h) rest) 0);
          [lia | f_equal; lia].
    + rewrite (hours_get_incr_other _ Hne).
      destruct (hours_get h c); [f_equal; lia | f_equal; lia].
Qed.

End Hours.

(** X14. The histogram of [get_problematic_periods]. For every hour, the
    dict holds the number of rows of the range that start in that hour of
    the day, and has no entry for an hour in which none starts; its keys
    are hours from 0 to 23. *)
Theorem problematic_periods_counts :
  forall (d : Database) (start_time end_time : datetime) (h : Z),
    hours_get h (get_problematic_periods d start_time end_time)
    = counted (how_many (fun r => hour (Incident.start_time r) =? h)
                 (in_range start_time end_time d))
    /\ (hours_get h (get_problematic_periods d start_time end_time) <> None ->
        0 <= h < 24).
Proof.
  intros d s e h.
  assert (Hcount : hours_get h (get_problematic_periods d s e)
            = counted (how_many (fun r => hour (Incident.start_time r) =? h)
                         (in_range s e d))).
  { unfold get_problematic_periods.
    rewrite (hours_fold (fun r => hour (Incident.start_time r))). cbn [hours_get].
    rewrite get_incidents_in_range.
    now rewrite (how_many_perm _ (order_by_start_time_perm _)). }
  split; [exact Hcount |].
  rewrite Hcount. unfold counted.
  destruct (Z.eqb_spec (how_many (fun r => hour (Incident.start_time r) =? h)
                          (in_range s e d)) 0) as [| Hnz];
    [intros H; now contradiction H |].
  intros _. destruct (how_many_positive _ _ Hnz) as [r [_ Hr]].
  apply Z.eqb_eq in Hr. subst h. unfold hour.
  apply Z.mod_pos_bound. lia.
Qed.

Lemma problematic_periods_counts_witness :
  0 <= 0 < 24.
Proof.
  apply (proj2 (problematic_periods_counts three_in_an_hour 0 one_hour 0)).
  vm_compute. discriminate.
Defined.

(* ================================================================== *)
(** * Further properties: the recovery branches of the check loops *)

Section Recovery.

Variable clock : nat -> datetime.
Variable store_ok : nat -> bool.

Lemma for_each_if (test : string -> bool) (body : string -> M World unit)
    (keys : list string) :
  forall w,
    for_each keys (fun key => if test key then body key else ret tt) w
    = for_each (filter test keys) body w.
Proof.
  induction keys as [| key rest IH]; intros w; cbn [for_each filter];
    [reflexivity |].
  destruct (test key); cbn [for_each]; unfold bind.
  - destruct (body key w) as [[] w1 | e w1]; [apply IH | reflexivity].
  - unfold ret at 1. apply IH.
Qed.

Lemma for_each_if_in_world (test : string -> bool)
    (body : string -> M World unit) (keys : list string) :
  forall a,
    for_each keys (fun key => if test key then in_world (body key) else ret tt) a
    = match for_each (filter test keys) body (world a) with
      | Returned x w =>
          Returned x (mkApp w (current_state_wifi a) (current_state_last_update a)
                        (stats_wifi_checks a) (stats_incidents a))
      | Raised e w =>
          Raised e (mkApp w (current_state_wifi a) (current_state_last_update a)
                      (stats_wifi_checks a) (stats_incidents a))
      end.
Proof.
  induction keys as [| key rest IH]; intros a; cbn [for_each filter].
  - destruct a. reflexivity.
  - destruct (test key); cbn [for_each]; unfold bind.
    + unfold in_world at 1.
      destruct (body key (world a)) as [[] w1 | e w1]; [| reflexivity].
      rewrite IH. reflexivity.
    + unfold ret at 1. apply IH.
Qed.

(** The index after the keys that pass a test were resolved, when the
    commits succeed. *)
Lemma resolve_matching (test : string -> bool) (w : World) :
  store_ok_from store_ok (commits w) ->
  exists w',
    for_each (filter test (dict_keys (active_incidents w)))
      (resolve_incident clock store_ok) w = Returned tt w'
    /\ active_incidents w'
       = filter (fun kv => negb (test (fst kv))) (active_incidents w)
    /\ (commits w <= commits w')%nat.
Proof.
  intros Hok.
  enough (Hcommits : forall keys w0,
             store_ok_from store_ok (commits w0) ->
             forall w1, for_each keys (resolve_incident clock store_ok) w0
                        = Returned tt w1 ->
             (commits w0 <= commits w1)%nat).
  { destruct (@resolve_loop clock store_ok
                (filter test (dict_keys (active_incidents w))) w Hok)
      as [w' [Hloop [Hindex _]]].
    exists w'. split; [exact Hloop |]. split; [| exact (Hcommits _ _ Hok _ Hloop)].
    rewrite Hindex, fold_dict_del. apply filter_ext_in.
    intros [k i] Hin. cbn [fst]. rewrite existsb_filter_keys; [reflexivity |].
    unfold dict_keys. change k with (fst (k, i)). now apply in_map. }
  induction keys as [| key rest IH]; intros w0 Hok0 w1; cbn [for_each].
  - intros [= <-]. lia.
  - unfold bind.
    destruct (dict_get key (active_incidents w0)) as [i |] eqn:Hget.
    + destruct (resolve_incident_returns clock store_ok _ _ Hget
                  (Hok0 _ (Nat.le_refl _)))
        as [w2 [Hrun [_ [_ Hle]]]].
      rewrite Hrun. intros Hrest.
      pose proof (IH w2 (store_ok_from_later Hok0 Hle) w1 Hrest). lia.
    + rewrite (resolve_incident_not_open clock store_ok _ _ Hget).
      now apply IH.
Qed.

End Recovery.

(** X15. Which recovery branch closes which incident. The key of every
    incident that [check_wifi_status] reports, and of every gateway incident
    that [check_network_connectivity] reports ([wifi_outage] and
    [wifi_degradation]), starts with one of the two prefixes that the WiFi
    loop resolves and not with the prefix that the network loop resolves;
    the key of an [internet_outage] is the other way round; the key of a
    sensor outage starts with none of them. *)
Theorem recovery_prefixes :
  (forall wifi_data rssi_critical d,
      check_wifi_status wifi_data rssi_critical = Some d ->
      is_wifi_key (incident_key d) = true
      /\ is_internet_key (incident_key d) = false)
  /\ (forall gateway_result internet_results d,
        check_network_connectivity gateway_result internet_results = Some d ->
        if String.eqb (Descriptor.incident_type d) "internet_outage"
        then is_internet_key (incident_key d) = true
             /\ is_wifi_key (incident_key d) = false
        else is_wifi_key (incident_key d) = true
             /\ is_internet_key (incident_key d) = false)
  /\ (forall sensor_check wifi_ok gateway_ok d,
        check_sensor_status sensor_check wifi_ok gateway_ok = Some d ->
        is_wifi_key (incident_key d) = false
        /\ is_internet_key (incident_key d) = false).
Proof.
  split; [| split].
  - intros wifi_data rssi_critical d. unfold check_wifi_status.
    destruct (negb (truthy (WiFi.is_connected wifi_data)));
      [| destruct (truthy_int (WiFi.rssi wifi_data)
                   && (get_default (WiFi.rssi wifi_data) 0 <? rssi_critical))];
      intros [= <-]; split; reflexivity.
  - intros g rs d. unfold check_network_connectivity.
    destruct (get_default (Ping.is_reachable g) false); cbn [negb andb].
    + destruct (negb (any_reachable rs));
        [| destruct (20 <? get_default (Ping.packet_loss g) 0)];
        intros [= <-]; split; reflexivity.
    + intros [= <-]. split; reflexivity.
  - intros s wifi_ok gateway_ok d. unfold check_sensor_status.
    destruct (truthy (Sensor.is_available s)); [discriminate |].
    destruct (negb wifi_ok || negb gateway_ok); intros [= <-]; split; reflexivity.
Qed.

Lemma recovery_prefixes_witness :
  is_wifi_key (incident_key wlan0_outage) = true
  /\ is_internet_key (incident_key internet_outage) = true
  /\ is_wifi_key (incident_key thermo_outage) = false.
Proof.
  split; [| split].
  - apply (proj1 recovery_prefixes wlan0_down (-80)). reflexivity.
  - apply (proj1 (proj2 recovery_prefixes) gateway_up internet_down internet_outage
             eq_refl).
  - apply (proj2 (proj2 recovery_prefixes) sensor_lost true true). reflexivity.
Defined.

(** X16. The recovery branch of the network loop. When
    [check_network_connectivity] reports nothing and the commits succeed,
    the incident part of an iteration of [_monitor_network] returns and
    removes from the index exactly the keys that start with
    [internet_outage:]; every other key stays, in its place. A gateway
    incident that this loop opened is thus never closed by it. *)
Theorem network_recovery :
  forall (clock : nat -> datetime) (store_ok : nat -> bool) (w : World)
         (gateway_result : Ping.t) (internet_results : list Ping.t),
    check_network_connectivity gateway_result internet_results = None ->
    store_ok_from store_ok (commits w) ->
    exists w',
      network_incident_check clock store_ok gateway_result internet_results w
      = Returned tt w'
      /\ active_incidents w'
         = filter (fun kv => negb (is_internet_key (fst kv))) (active_incidents w).
Proof.
  intros clock store_ok w g rs Hnone Hok.
  unfold network_incident_check. rewrite Hnone. rewrite for_each_if.
  destruct (resolve_matching clock is_internet_key w Hok)
    as [w' [Hloop [Hindex _]]].
  exists w'. split; [exact Hloop | exact Hindex].
Qed.

Lemma network_recovery_witness :
  exists w',
    network_incident_check sample_clock store_always_ok gateway_up internet_up
      three_open = Returned tt w'
    /\ dict_keys (active_incidents w')
       = [incident_key wlan0_outage; incident_key thermo_outage].
Proof.
  destruct (@network_recovery sample_clock store_always_ok three_open
              gateway_up internet_up eq_refl (fun m _ => eq_refl))
    as [w' [Hrun Hindex]].
  exists w'. split; [exact Hrun |]. rewrite Hindex. reflexivity.
Defined.

(** X17. The recovery branch of the WiFi loop. When [check_wifi_status]
    reports nothing and the commits succeed, an iteration of
    [_monitor_wifi] returns; it removes from the index exactly the keys
    that start with [wifi_outage:] or [wifi_degradation:], those of the
    gateway incidents of the network loop included, keeps every other key
    in its place, records the snapshot as the current WiFi state and sets
    the incident count of the display to the size of the index. *)
Theorem wifi_recovery :
  forall (clock : nat -> datetime) (store_ok : nat -> bool)
         (rssi_critical retention_days : Z) (wifi_data : WiFi.t)
         (last_cleanup : datetime) (a : App),
    check_wifi_status wifi_data rssi_critical = None ->
    store_ok_from store_ok (commits (world a)) ->
    exists last_cleanup' a',
      monitor_wifi_iteration clock store_ok rssi_critical retention_days
        wifi_data last_cleanup a = Returned last_cleanup' a'
      /\ active_incidents (world a')
         = filter (fun kv => negb (is_wifi_key (fst kv)))
             (active_incidents (world a))
      /\ stats_incidents a' = len (active_incidents (world a'))
      /\ current_state_wifi a' = Some wifi_data.
Proof.
  intros clock store_ok rssi_critical retention_days wifi_data last_cleanup a
         Hnone Hok.
  unfold monitor_wifi_iteration, try_except, wifi_check. rewrite Hnone.
  unfold bind, active_keys, record_wifi, record_incident_count.
  unfold in_world at 1, add_wifi_metric, commit.
  rewrite (Hok _ (Nat.le_refl _)).
  unfold in_world at 1, utcnow at 1.
  cbn [world current_state_wifi current_state_last_update stats_wifi_checks
       stats_incidents active_incidents db ticks commits].
  rewrite for_each_if_in_world.
  cbn [world current_state_wifi current_state_last_update stats_wifi_checks
       stats_incidents].
  match goal with
  | |- context [for_each _ _ ?w] => set (w1 := w)
  end.
  assert (Hok1 : store_ok_from store_ok (commits w1))
    by (apply (store_ok_from_later Hok); cbn; lia).
  destruct (resolve_matching clock is_wifi_key w1 Hok1)
    as [w2 [Hloop [Hindex Hcommits]]].
  change (active_incidents (world a)) with (active_incidents w1) at 1.
  rewrite Hloop.
  unfold in_world at 1, utcnow at 1.
  cbn [world current_state_wifi current_state_last_update stats_wifi_checks
       stats_incidents active_incidents db ticks commits].
  destruct (21600 * MICROSECONDS <? clock (ticks w2) - last_cleanup).
  - unfold in_world at 1, cleanup_old_data, bind, utcnow at 1, commit.
    cbn [world active_incidents db ticks commits].
    rewrite (Hok (commits w2)) by (cbn in Hcommits; lia).
    unfold in_world, utcnow.
    cbn [world current_state_wifi current_state_last_update stats_wifi_checks
         stats_incidents active_incidents db ticks commits].
    do 2 eexists. split; [reflexivity |].
    cbn [world stats_incidents current_state_wifi active_incidents].
    rewrite Hindex. repeat split.
  - unfold ret. do 2 eexists. split; [reflexivity |].
    cbn [world stats_incidents current_state_wifi active_incidents].
    rewrite Hindex. repeat split.
Qed.

Lemma wifi_recovery_witness :
  exists last_cleanup' a',
    monitor_wifi_iteration sample_clock store_always_ok (-80) 7
      (WiFi.mk 0 "wlan0" (Some true) (Some (-60))) 0
      (mkApp three_open None None 0 3)
    = Returned last_cleanup' a'
    /\ dict_keys (active_incidents (world a'))
       = [incident_key internet_outage; incident_key thermo_outage]
    /\ stats_incidents a' = 2.
Proof.
  destruct (@wifi_recovery sample_clock store_always_ok (-80) 7
              (WiFi.mk 0 "wlan0" (Some true) (Some (-60))) 0
              (mkApp three_open None None 0 3) eq_refl (fun m _ => eq_refl))
    as [lc [a' [Hrun [Hindex [Hstats _]]]]].
  exists lc, a'. split; [exact Hrun |].
  rewrite Hstats, Hindex. split; reflexivity.
Defined.

(* ================================================================== *)
(** * Further properties: the store and the WiFi monitor *)

(** X18. [update_incident] and the lookup by id. For an id that no row
    has, it returns [None] without a commit and changes nothing. For an id
    that a row has and a commit that succeeds, it returns the row with the
    assignments applied, a later lookup of the id finds that row, the
    lookup of every other id is as before, the ids of the table are the
    same in the same order, and the index is untouched. When the commit
    fails it raises and the tables are as they were. *)
Theorem update_then_lookup :
  forall (store_ok : nat -> bool) (w : World) (incident_id : Z)
         (kwargs : list Assignment),
    (find_incident incident_id (incidents (db w)) = None ->
       update_incident store_ok incident_id kwargs w = Returned None w)
    /\ (forall r,
          find_incident incident_id (incidents (db w)) = Some r ->
          store_ok (commits w) = true ->
          exists w',
            update_incident store_ok incident_id kwargs w
            = Returned (Some (apply_kwargs kwargs r)) w'
            /\ find_incident incident_id (incidents (db w'))
               = Some (apply_kwargs kwargs r)
            /\ (forall j, j <> incident_id ->
                  find_incident j (incidents (db w'))
                  = find_incident j (incidents (db w)))
            /\ map Incident.id (incidents (db w'))
               = map Incident.id (incidents (db w))
            /\ active_incidents w' = active_incidents w)
    /\ (forall r,
          find_incident incident_id (incidents (db w)) = Some r ->
          store_ok (commits w) = false ->
          exists w',
            update_incident store_ok incident_id kwargs w = Raised StoreError w'
            /\ db w' = db w /\ active_incidents w' = active_incidents w).
Proof.
  intros store_ok w incident_id kwargs.
  unfold update_incident, bind, query.
  split; [| split].
  - intros ->. reflexivity.
  - intros r Hfind Hok. rewrite Hfind. unfold commit. rewrite Hok.
    eexists. split; [reflexivity |]. cbn [db incidents write_incident active_incidents].
    split; [now rewrite find_update_first_same, Hfind |].
    split; [intros j Hne; apply find_update_first_other; congruence |].
    split; [apply update_first_ids | reflexivity].
  - intros r Hfind Hko. rewrite Hfind. unfold commit. rewrite Hko.
    eexists. split; [reflexivity |]. split; reflexivity.
Qed.

Lemma update_then_lookup_witness :
  update_incident store_always_ok 9 [Set_is_resolved true] three_open
  = Returned None three_open
  /\ exists w',
       update_incident store_always_ok 2 [Set_is_resolved true] three_open
       = Returned
           (Some (Incident.mk 2 (300 * MICROSECONDS) None None
                    "internet_outage" "warning"
                    (json_dumps ["8.8.8.8"; "1.1.1.1"])
                    "Internet connectivity lost (gateway reachable)" None true))
           w'
       /\ active_incidents w' = active_incidents three_open.
Proof.
  split.
  - apply (proj1 (update_then_lookup store_always_ok three_open 9
                    [Set_is_resolved true])).
    reflexivity.
  - destruct (proj1 (proj2 (update_then_lookup store_always_ok three_open 2
                              [Set_is_resolved true]))
                _ eq_refl eq_refl)
      as [w' [Hrun [_ [_ [_ Hindex]]]]].
    exists w'. split; [exact Hrun | exact Hindex].
Defined.

(** X19. The id of a new incident and a key left behind. [add_incident]
    gives a new row the largest id of the table plus one. When the index
    still holds that very id under a key whose row is gone from the table,
    opening another incident registers the same id under the second key:
    two keys then name one row, and closing the first key resolves the row
    of the second incident. *)
Theorem id_reused_after_deletion :
  forall (clock : nat -> datetime) (store_ok : nat -> bool) (w : World)
         (key : string) (incident_data : Descriptor.t),
    dict_get key (active_incidents w) = Some (next_rowid (incidents (db w))) ->
    dict_get (incident_key incident_data) (active_incidents w) = None ->
    store_ok (commits w) = true ->
    store_ok (S (commits w)) = true ->
    exists i w1 w2 row,
      process_incident clock store_ok incident_data w = Returned i w1
      /\ dict_get key (active_incidents w1) = Some i
      /\ dict_get (incident_key incident_data) (active_incidents w1) = Some i
      /\ resolve_incident clock store_ok key w1 = Returned tt w2
      /\ dict_get (incident_key incident_data) (active_incidents w2) = Some i
      /\ find_incident i (incidents (db w2)) = Some row
      /\ Incident.is_resolved row = true
      /\ Incident.description row = Descriptor.description incident_data.
Proof.
  intros clock store_ok w key incident_data Hkey Habsent Hok Hok2.
  set (rows := incidents (db w)) in *.
  assert (Hne : incident_key incident_data <> key) by congruence.
  pose proof (process_incident_opens clock store_ok _ _ Habsent Hok) as Hopen.
  fold rows in Hopen.
  match type of Hopen with _ = Returned _ ?x => set (w1 := x) in * end.
  assert (Hget : dict_get key (active_incidents w1) = Some (next_rowid rows)).
  { unfold w1. cbn [active_incidents]. now rewrite dict_get_set_other. }
  assert (Hfind : find_incident (next_rowid rows) (incidents (db w1))
                  = Some (opened_row clock incident_data w)).
  { unfold w1. cbn [db incidents].
    rewrite find_incident_app_absent by apply find_next_rowid_all.
    unfold find_incident, opened_row. cbn. fold rows. now rewrite Z.eqb_refl. }
  pose proof (resolve_incident_open clock store_ok _ _ Hget) as Hclose.
  rewrite Hfind in Hclose. cbn [commits w1] in Hclose. rewrite Hok2 in Hclose.
  do 4 eexists. split; [exact Hopen |]. split; [exact Hget |].
  split; [unfold w1; cbn [active_incidents]; apply dict_get_set_same |].
  split; [exact Hclose |].
  cbn [active_incidents db incidents write_incident].
  split.
  { rewrite dict_get_del_other by congruence.
    unfold w1. cbn [active_incidents]. apply dict_get_set_same. }
  rewrite find_update_first_same, Hfind. cbn [option_map].
  split; [reflexivity |].
  destruct (resolve_kwargs_resolves clock (next_rowid rows) w1
              (opened_row clock incident_data w)) as [Hres _].
  split; [exact Hres |].
  unfold resolve_kwargs.
  destruct (find_incident (next_rowid rows) (get_active_incidents (db w1)));
    reflexivity.
Qed.

Example after_cleanup_state :
  active_incidents after_cleanup = [(incident_key wlan0_outage, 1)]
  /\ incidents (db after_cleanup) = [].
Proof. split; reflexivity. Qed.

Lemma id_reused_after_deletion_witness :
  exists w1 w2 row,
    process_incident slow_clock store_always_ok internet_outage after_cleanup
    = Returned 1 w1
    /\ dict_get (incident_key wlan0_outage) (active_incidents w1) = Some 1
    /\ dict_get (incident_key internet_outage) (active_incidents w1) = Some 1
    /\ resolve_incident slow_clock store_always_ok (incident_key wlan0_outage) w1
       = Returned tt w2
    /\ find_incident 1 (incidents (db w2)) = Some row
    /\ Incident.is_resolved row = true
    /\ Incident.incident_type row = "internet_outage".
Proof.
  destruct (@id_reused_after_deletion slow_clock store_always_ok after_cleanup
              (incident_key wlan0_outage) internet_outage
              eq_refl eq_refl eq_refl eq_refl)
    as [i [w1 [w2 [row [H1 [H2 [H3 [H4 [_ [H5 [H6 _]]]]]]]]]]].
  assert (Hi : i = 1).
  { vm_compute in H1. injection H1 as <- _. reflexivity. }
  subst i. exists w1, w2, row.
  split; [exact H1 |]. split; [exact H2 |]. split; [exact H3 |].
  split; [exact H4 |]. split; [exact H5 |]. split; [exact H6 |].
  vm_compute in H1. injection H1 as <-.
  vm_compute in H4. injection H4 as <-.
  vm_compute in H5. injection H5 as <-. reflexivity.
Defined.

(** X20. [_freq_to_channel]. The centre frequency of each channel is
    mapped back to the channel: 2407 + 5c MHz to c for the channels 1 to 13,
    2484 MHz to 14, and 5000 + 5c MHz to c for the channels 34 to 165. A
    frequency outside the two bands gives no channel, and a frequency of
    the 2.4 GHz band gives a number from 1 to 15. *)
Theorem freq_to_channel_round_trip :
  (forall c, 1 <= c <= 13 -> _freq_to_channel (2407 + 5 * c) = Some c)
  /\ _freq_to_channel 2484 = Some 14
  /\ (forall c, 34 <= c <= 165 -> _freq_to_channel (5000 + 5 * c) = Some c)
  /\ (forall f, f < 2412 \/ 2484 < f < 5170 \/ 5825 < f ->
                _freq_to_channel f = None)
  /\ (forall f c, 2412 <= f <= 2484 -> _freq_to_channel f = Some c ->
                  1 <= c <= 15).
Proof.
  unfold _freq_to_channel. split; [| split; [| split; [| split]]].
  - intros c Hc.
    destruct (Z.leb_spec 2412 (2407 + 5 * c)); [| lia].
    destruct (Z.leb_spec (2407 + 5 * c) 2484); [| lia].
    cbn [andb]. destruct (Z.eqb_spec (2407 + 5 * c) 2484); [lia |].
    f_equal. replace (2407 + 5 * c - 2412) with ((c - 1) * 5) by lia.
    rewrite Z.div_mul by lia. lia.
  - reflexivity.
  - intros c Hc.
    destruct (Z.leb_spec 2412 (5000 + 5 * c)); [| lia].
    destruct (Z.leb_spec (5000 + 5 * c) 2484); [lia |].
    cbn [andb].
    destruct (Z.leb_spec 5170 (5000 + 5 * c)); [| lia].
    destruct (Z.leb_spec (5000 + 5 * c) 5825); [| lia].
    cbn [andb]. f_equal.
    replace (5000 + 5 * c - 5000) with (c * 5) by lia.
    now rewrite Z.div_mul by lia.
  - intros f Hf.
    destruct (Z.leb_spec 2412 f), (Z.leb_spec f 2484),
             (Z.leb_spec 5170 f), (Z.leb_spec f 5825);
      cbn [andb]; try reflexivity; lia.
  - intros f c Hf.
    destruct (Z.leb_spec 2412 f); [| lia].
    destruct (Z.leb_spec f 2484); [| lia].
    cbn [andb]. destruct (f =? 2484); intros [= <-]; [lia |].
    assert (0 <= (f - 2412) / 5) by (apply Z.div_pos; lia).
    assert ((f - 2412) / 5 < 15) by (apply Z.div_lt_upper_bound; lia).
    lia.
Qed.

Lemma freq_to_channel_round_trip_witness :
  _freq_to_channel 2437 = Some 6
  /\ _freq_to_channel 5180 = Some 36
  /\ _freq_to_channel 3000 = None.
Proof.
  split; [| split].
  - apply (proj1 freq_to_channel_round_trip 6). lia.
  - apply (proj1 (proj2 (proj2 freq_to_channel_round_trip)) 36). lia.
  - apply (proj1 (proj2 (proj2 (proj2 freq_to_channel_round_trip))) 3000). lia.
Defined.
